(** * Dr. Greenthumb trademark tracker: a shallow embedding and its properties

    The development follows the Python sources of the repository:
    - [tracker.py]                          ([Module Tracker]),
    - [integrations/licensing_connector.py] ([Module Licensing]),
    - [integrations/calendar_sync.py]       ([Module Calendar]).

    Python dictionaries with a fixed schema are records, optional keys
    (read with [dict.get]) are [option] fields, Python sets of strings are
    [gset string], JSON files live in a finite map from paths to contents,
    and exceptions are the [Raised] results of an outcome type. *)

From Stdlib Require Import ZArith String Ascii List Lia.
From stdpp Require Import base option list strings gmap sets pretty sorting.

#[local] Set Warnings "-clear-no-such-hyp".

Local Open Scope string_scope.
Local Open Scope list_scope.
Local Open Scope Z_scope.

(** ** Text *)

(** [str.lower()], on ASCII text: the letters [A]-[Z] become [a]-[z] and
    every other character is kept. *)
Definition lower_ascii (c : ascii) : ascii :=
  let n := N_of_ascii c in
  if ((65 <=? n) && (n <=? 90))%N then ascii_of_N (n + 32) else c.

Fixpoint lower (s : string) : string :=
  match s with
  | EmptyString => EmptyString
  | String c s' => String (lower_ascii c) (lower s')
  end.

(** [x in xs] for a Python list of strings. *)
Definition str_in (x : string) (xs : list string) : bool :=
  existsb (String.eqb x) xs.

(** ** Data model *)

(** A trademark record of [trademarks.json]. [registration_number] and
    [created] are keys that a record may lack. *)
Record Trademark := mkTrademark {
  tm_id : Z;
  tm_name : string;
  tm_jurisdiction : string;
  tm_filing_date : string;
  tm_renewal_date : string;
  tm_status : string;
  tm_registration_number : option string;
  tm_created : option string
}.

(** A record of [licensing_agreements.json]; [territories] is read with
    [agreement.get('territories', [])], so the key may be absent. *)
Record Agreement := mkAgreement {
  ag_id : Z;
  ag_licensee : string;
  ag_territories : option (list string);
  ag_status : string
}.

(** ** Exceptions and results *)

Inductive exn :=
  | FileNotFoundError
  | JSONDecodeError
  | ValueError
  | OverflowError.

Inductive outcome (A : Type) :=
  | Returned (v : A)
  | Raised (e : exn).
Arguments Returned {A} v.
Arguments Raised {A} e.

#[global] Instance outcome_ret : MRet outcome := fun _ v => Returned v.
#[global] Instance outcome_bind : MBind outcome := fun _ _ k m =>
  match m with
  | Returned v => k v
  | Raised e => Raised e
  end.

(** ** Calendar dates ([datetime])

    A [date] is represented by its proleptic Gregorian ordinal
    ([date.toordinal()]: 1 is 0001-01-01, [MAXORDINAL] is 9999-12-31); on
    this representation comparing two dates and subtracting them are the
    integer operations. The conversions below follow [_ymd2ord] and
    [_ord2ymd] of the [datetime] module. *)

Definition MAXORDINAL : Z := 3652059.

Definition _is_leap (year : Z) : bool :=
  (year mod 4 =? 0) && (negb (year mod 100 =? 0) || (year mod 400 =? 0)).

Definition _DAYS_IN_MONTH (month : Z) : Z :=
  match month with
  | 1 => 31 | 2 => 28 | 3 => 31 | 4 => 30 | 5 => 31 | 6 => 30
  | 7 => 31 | 8 => 31 | 9 => 30 | 10 => 31 | 11 => 30 | 12 => 31
  | _ => -1
  end.

Definition _DAYS_BEFORE_MONTH (month : Z) : Z :=
  match month with
  | 1 => 0 | 2 => 31 | 3 => 59 | 4 => 90 | 5 => 120 | 6 => 151
  | 7 => 181 | 8 => 212 | 9 => 243 | 10 => 273 | 11 => 304 | 12 => 334
  | _ => -1
  end.

Definition _days_in_month (year month : Z) : Z :=
  if (month =? 2) && _is_leap year then 29 else _DAYS_IN_MONTH month.

Definition _days_before_year (year : Z) : Z :=
  let y := year - 1 in y * 365 + y / 4 - y / 100 + y / 400.

Definition _days_before_month (year month : Z) : Z :=
  _DAYS_BEFORE_MONTH month + (if (2 <? month) && _is_leap year then 1 else 0).

Definition _ymd2ord (year month day : Z) : Z :=
  _days_before_year year + _days_before_month year month + day.

Definition _ord2ymd (n : Z) : Z * Z * Z :=
  let n := n - 1 in
  let n400 := n / 146097 in let n := n mod 146097 in
  let year := n400 * 400 + 1 in
  let n100 := n / 36524 in let n := n mod 36524 in
  let n4 := n / 1461 in let n := n mod 1461 in
  let n1 := n / 365 in let n := n mod 365 in
  let year := year + n100 * 100 + n4 * 4 + n1 in
  if (n1 =? 4) || (n100 =? 4) then (year - 1, 12, 31)
  else
    let leapyear := (n1 =? 3) && (negb (n4 =? 24) || (n100 =? 3)) in
    let month := Z.shiftr (n + 50) 5 in
    let preceding :=
      _DAYS_BEFORE_MONTH month + (if (2 <? month) && leapyear then 1 else 0) in
    if n <? preceding then
      let month := month - 1 in
      let preceding :=
        preceding
        - (_DAYS_IN_MONTH month + (if (month =? 2) && leapyear then 1 else 0)) in
      (year, month, n - preceding + 1)
    else (year, month, n - preceding + 1).

(** Decimal digits. *)
Definition digit_of (c : ascii) : option Z :=
  let n := N_of_ascii c in
  if ((48 <=? n) && (n <=? 57))%N then Some (Z.of_N n - 48) else None.

Fixpoint digits_from (acc : Z) (cs : list ascii) : option Z :=
  match cs with
  | [] => Some acc
  | c :: cs' =>
      match digit_of c with
      | Some d => digits_from (10 * acc + d) cs'
      | None => None
      end
  end.

Definition parse_digits (cs : list ascii) : option Z := digits_from 0 cs.

(** [datetime.fromisoformat(s)] followed by the reading of its calendar day,
    for the date-only form [YYYY-MM-DD] in which the repository writes its
    dates. Any other text is a [ValueError] here. *)
Definition fromisoformat (s : string) : outcome Z :=
  match list_ascii_of_string s with
  | [y1; y2; y3; y4; "-"%char; m1; m2; "-"%char; d1; d2] =>
      match parse_digits [y1; y2; y3; y4], parse_digits [m1; m2],
            parse_digits [d1; d2] with
      | Some year, Some month, Some day =>
          if (1 <=? year) && (1 <=? month) && (month <=? 12)
             && (1 <=? day) && (day <=? _days_in_month year month)
          then Returned (_ymd2ord year month day)
          else Raised ValueError
      | _, _, _ => Raised ValueError
      end
  | _ => Raised ValueError
  end.

(** [date + timedelta(days=days)]: [timedelta] accepts at most 999999999
    days either way, and the sum must be a date of the years 1 to 9999. *)
Definition date_add_days (d days : Z) : outcome Z :=
  if (Z.abs days <=? 999999999) && (1 <=? d + days) && (d + days <=? MAXORDINAL)
  then Returned (d + days)
  else Raised OverflowError.

(** The condition under which [today + timedelta(days=days)] is a date. *)
Definition horizon_ok (today days : Z) : Prop :=
  Z.abs days <= 999999999 /\ 1 <= today + days <= MAXORDINAL.

(** Zero-padded decimal fields of [strftime] and [isoformat]. *)
Fixpoint zeros (n : nat) : string :=
  match n with
  | O => EmptyString
  | S n' => String "0"%char (zeros n')
  end.

Definition zfill (width : nat) (n : Z) : string :=
  let s := pretty n in
  zeros (width - String.length s) +:+ s.

(** [strftime("%Y%m%d")] of the date with ordinal [d], the year written
    with four digits. *)
Definition strftime_Ymd (d : Z) : string :=
  let '(year, month, day) := _ord2ymd d in
  zfill 4 year +:+ zfill 2 month +:+ zfill 2 day.

(** The reading of the system clock, [datetime.now()]. *)
Record datetime := mkDatetime {
  dt_date : Z;
  dt_hour : Z;
  dt_minute : Z;
  dt_second : Z;
  dt_microsecond : Z
}.

(** [now.strftime("%Y%m%dT%H%M%SZ")] *)
Definition strftime_stamp (now : datetime) : string :=
  strftime_Ymd (dt_date now) +:+ "T" +:+ zfill 2 (dt_hour now)
  +:+ zfill 2 (dt_minute now) +:+ zfill 2 (dt_second now) +:+ "Z".

(** [now.isoformat()] *)
Definition isoformat (now : datetime) : string :=
  let '(year, month, day) := _ord2ymd (dt_date now) in
  zfill 4 year +:+ "-" +:+ zfill 2 month +:+ "-" +:+ zfill 2 day +:+ "T"
  +:+ zfill 2 (dt_hour now) +:+ ":" +:+ zfill 2 (dt_minute now) +:+ ":"
  +:+ zfill 2 (dt_second now)
  +:+ (if dt_microsecond now =? 0 then ""
       else "." +:+ zfill 6 (dt_microsecond now)).

(** ** Files *)

(** What [json.load] makes of a file: a decoded array of records, or a
    [JSONDecodeError]. *)
Inductive contents (A : Type) :=
  | Parsed (v : list A)
  | Garbage.
Arguments Parsed {A} v.
Arguments Garbage {A}.

(** [with open(path) as f: return json.load(f)] *)
Definition open_and_load {A} (fs : gmap string (contents A)) (path : string)
  : outcome (list A) :=
  match fs !! path with
  | None => Raised FileNotFoundError
  | Some (Parsed v) => Returned v
  | Some Garbage => Raised JSONDecodeError
  end.

(** ** integrations/licensing_connector.py *)

Module Licensing.

(** [LicensingConnector.load_json] *)
Definition load_json {A} (fs : gmap string (contents A)) (filename : string)
  : outcome (list A) :=
  match open_and_load fs filename with
  | Raised FileNotFoundError => Returned []
  | r => r
  end.

(** The state of a [LicensingConnector] after [__init__]. *)
Record LicensingConnector := mkConnector {
  trademarks : list Trademark;
  licensing_agreements : list Agreement
}.

(** [__init__]: both files are read with [load_json]. The files that hold
    trademark arrays and those that hold agreement arrays are two views of
    the one file system. *)
Definition init (tm_files : gmap string (contents Trademark))
    (ag_files : gmap string (contents Agreement))
    (trademarks_file licensing_file : string) : outcome LicensingConnector :=
  tms ← load_json tm_files trademarks_file;
  ags ← load_json ag_files licensing_file;
  mret (mkConnector tms ags).

(** The dictionaries appended by [_check_unfiled_territory]. *)
Record Conflict := mkConflict {
  c_trademark : string;
  c_jurisdiction : string;
  c_issue : string;
  c_licensee : string;
  c_agreement_id : Z;
  c_risk_level : string;
  c_cost_to_file : string;
  c_recommended_action : string
}.

Definition territories_of (agreement : Agreement) : list string :=
  default [] (ag_territories agreement).

Definition make_conflict (trademark : Trademark) (agreement : Agreement)
  : Conflict :=
  let jurisdiction := tm_jurisdiction trademark in
  {| c_trademark := tm_name trademark;
     c_jurisdiction := jurisdiction;
     c_issue := "Operating without TM protection";
     c_licensee := ag_licensee agreement;
     c_agreement_id := ag_id agreement;
     c_risk_level := "HIGH";
     c_cost_to_file := "$3,900";
     c_recommended_action :=
       "File trademark in " +:+ jurisdiction +:+
       " immediately to protect licensed territory" |}.

(** The test of the two nested [if]s of [_check_unfiled_territory]. *)
Definition agreement_conflicts (trademark : Trademark) (agreement : Agreement)
  : bool :=
  str_in (lower (tm_jurisdiction trademark)) (territories_of agreement)
  && (ag_status agreement =? "active")%string.

(** [_check_unfiled_territory]: the loop over the agreements, appending to
    [conflicts]. *)
Definition _check_unfiled_territory (self : LicensingConnector)
    (trademark : Trademark) : list Conflict :=
  fold_left
    (fun conflicts agreement =>
       if agreement_conflicts trademark agreement
       then conflicts ++ [make_conflict trademark agreement]
       else conflicts)
    (licensing_agreements self) [].

Definition unfiled (tm : Trademark) : bool :=
  (tm_status tm =? "pending")%string || (tm_status tm =? "abandoned")%string.

(** The pairs of a trademark and an agreement for which the two loops
    together append a record. *)
Definition emitting_pair (p : Trademark * Agreement) : bool :=
  unfiled p.1 && agreement_conflicts p.1 p.2.

(** [check_territory_conflicts]: the loop over the trademarks, extending
    [conflicts] when the inner list is not empty. *)
Definition check_territory_conflicts (self : LicensingConnector)
  : list Conflict :=
  fold_left
    (fun conflicts tm =>
       if unfiled tm then
         let territory_conflicts := _check_unfiled_territory self tm in
         match territory_conflicts with
         | [] => conflicts
         | _ :: _ => conflicts ++ territory_conflicts
         end
       else conflicts)
    (trademarks self) [].

(** The three sets of [generate_territory_report]. *)
Definition licensed_territories (self : LicensingConnector) : gset string :=
  fold_left
    (fun licensed agreement =>
       if (ag_status agreement =? "active")%string then
         fold_left (fun licensed territory => licensed ∪ {[ lower territory ]})
                   (territories_of agreement) licensed
       else licensed)
    (licensing_agreements self) ∅.

Definition protected_territories (self : LicensingConnector) : gset string :=
  fold_left
    (fun protected tm =>
       if (tm_status tm =? "active")%string
       then protected ∪ {[ lower (tm_jurisdiction tm) ]}
       else protected)
    (trademarks self) ∅.

Definition unprotected (self : LicensingConnector) : gset string :=
  licensed_territories self ∖ protected_territories self.

(** The dictionary returned by [generate_territory_report]. The list under
    ["unprotected"] is [list(unprotected)]: the elements of the set, in an
    order Python leaves open. *)
Record TerritoryReport := mkReport {
  r_licensed : nat;
  r_protected : nat;
  r_unprotected : list string;
  r_conflicts : list Conflict
}.

Definition generate_territory_report (self : LicensingConnector)
  : TerritoryReport :=
  {| r_licensed := size (licensed_territories self);
     r_protected := size (protected_territories self);
     r_unprotected := elements (unprotected self);
     r_conflicts := check_territory_conflicts self |}.

(** The figure printed by the main block of the module:
    [len(report['unprotected']) * 3900]. *)
Definition estimated_cost (report : TerritoryReport) : Z :=
  Z.of_nat (length (r_unprotected report)) * 3900.

End Licensing.

(** The line feed, [chr(10)], as a text. *)
Definition line_feed : string := String "010"%char EmptyString.

(** ** tracker.py *)

(** [sorted(xs, key=key)]: Python's sort is stable, so its result is the one
    of any stable sort; here an insertion sort that puts an element in front
    of the first element whose key is not smaller. *)
Fixpoint insert_by {A} (key : A -> Z) (x : A) (l : list A) : list A :=
  match l with
  | [] => [x]
  | y :: l' => if key x <=? key y then x :: y :: l' else y :: insert_by key x l'
  end.

Definition sorted {A} (key : A -> Z) (l : list A) : list A :=
  foldr (insert_by key) [] l.

(** The order of the keys, on the elements. *)
Definition key_le {A} (key : A -> Z) (a b : A) : Prop := key a <= key b.

Module Tracker.

Definition data_file : string := "trademarks.json".

(** The state of a [TrademarkTracker]: [self.trademarks]. *)
Record TrademarkTracker := mkTracker {
  trademarks : list Trademark
}.

(** [load_data]: the test [self.data_file.exists()] guards the read. *)
Definition load_data (fs : gmap string (contents Trademark))
  : outcome (list Trademark) :=
  if bool_decide (is_Some (fs !! data_file))
  then open_and_load fs data_file
  else Returned [].

(** [__init__] *)
Definition init (fs : gmap string (contents Trademark))
  : outcome TrademarkTracker :=
  tms ← load_data fs; mret (mkTracker tms).

(** [save_data] *)
Definition save_data (self : TrademarkTracker)
    (fs : gmap string (contents Trademark)) : gmap string (contents Trademark) :=
  <[data_file := Parsed (trademarks self)]> fs.

(** The dictionary built by [add_trademark]. *)
Definition new_trademark (now : datetime) (self : TrademarkTracker)
    (name jurisdiction filing_date renewal_date : string) : Trademark :=
  {| tm_id := Z.of_nat (length (trademarks self)) + 1;
     tm_name := name;
     tm_jurisdiction := jurisdiction;
     tm_filing_date := filing_date;
     tm_renewal_date := renewal_date;
     tm_status := "active";
     tm_registration_number := None;
     tm_created := Some (isoformat now) |}.

(** [add_trademark]: the new state of the tracker and of the files (the line
    printed on the console is left out). *)
Definition add_trademark (now : datetime)
    (name jurisdiction filing_date renewal_date : string)
    (self : TrademarkTracker) (fs : gmap string (contents Trademark))
  : TrademarkTracker * gmap string (contents Trademark) :=
  let tm := new_trademark now self name jurisdiction filing_date renewal_date in
  let self' := mkTracker (trademarks self ++ [tm]) in
  (self', save_data self' fs).

(** An element of the list returned by [get_upcoming]:
    [{**tm, 'days_until': days_until}], a new dictionary. *)
Record Upcoming := mkUpcoming {
  u_tm : Trademark;
  days_until : Z
}.

(** The body of the [for] loop of [get_upcoming]. *)
Definition upcoming_step (today threshold : Z) (upcoming : list Upcoming)
    (tm : Trademark) : outcome (list Upcoming) :=
  if negb (tm_status tm =? "active")%string then mret upcoming
  else
    renewal ← fromisoformat (tm_renewal_date tm);
    if (today <=? renewal) && (renewal <=? threshold)
    then mret (upcoming ++ [mkUpcoming tm (renewal - today)])
    else mret upcoming.

Definition upcoming_loop (today threshold : Z) (tms : list Trademark)
  : outcome (list Upcoming) :=
  fold_left (fun acc tm => upcoming ← acc; upcoming_step today threshold upcoming tm)
            tms (mret []).

(** [get_upcoming], with the reading [now] of the clock: the result, and the
    tracker as the call leaves it. *)
Definition get_upcoming (now : datetime) (days : Z) (self : TrademarkTracker)
  : outcome (list Upcoming) * TrademarkTracker :=
  let today := dt_date now in
  (threshold ← date_add_days today days;
   upcoming ← upcoming_loop today threshold (trademarks self);
   mret (sorted days_until upcoming),
   self).

(** The entry that one turn of the loop appends to [upcoming], if any, when
    the renewal date of [tm] can be read. *)
Definition entry_of (today threshold : Z) (tm : Trademark) : list Upcoming :=
  if (tm_status tm =? "active")%string then
    match fromisoformat (tm_renewal_date tm) with
    | Returned renewal =>
        if (today <=? renewal) && (renewal <=? threshold)
        then [mkUpcoming tm (renewal - today)]
        else []
    | Raised _ => []
    end
  else [].

Definition entries (today threshold : Z) (tms : list Trademark)
  : list Upcoming :=
  flat_map (entry_of today threshold) tms.

(** The renewal date of an active record can be read. *)
Definition well_dated (tm : Trademark) : Prop :=
  tm_status tm = "active" ->
  exists renewal, fromisoformat (tm_renewal_date tm) = Returned renewal.

(** An active record whose renewal date is [d] days after [today]. *)
Definition due_in (today d : Z) (tm : Trademark) : bool :=
  (tm_status tm =? "active")%string
  && match fromisoformat (tm_renewal_date tm) with
     | Returned renewal => renewal - today =? d
     | Raised _ => false
     end.

(** The arguments of one call of [add_trademark], with the reading of the
    clock at the call. *)
Record AddCall := mkAddCall {
  a_now : datetime;
  a_name : string;
  a_jurisdiction : string;
  a_filing_date : string;
  a_renewal_date : string
}.

(** A sequence of calls of [add_trademark]. *)
Definition run_adds (calls : list AddCall) (self : TrademarkTracker)
    (fs : gmap string (contents Trademark))
  : TrademarkTracker * gmap string (contents Trademark) :=
  fold_left
    (fun st c =>
       add_trademark (a_now c) (a_name c) (a_jurisdiction c) (a_filing_date c)
                     (a_renewal_date c) st.1 st.2)
    calls (self, fs).

(** *** [generate_report] *)

(** ["=" * 80] *)
Definition rule80 : string := String.concat "" (repeat "=" 80).

(** [now.strftime('%Y-%m-%d %H:%M')] *)
Definition strftime_minute (now : datetime) : string :=
  let '(year, month, day) := _ord2ymd (dt_date now) in
  zfill 4 year +:+ "-" +:+ zfill 2 month +:+ "-" +:+ zfill 2 day +:+ " "
  +:+ zfill 2 (dt_hour now) +:+ ":" +:+ zfill 2 (dt_minute now).

(** The readings of the clock during one call of [generate_report]: for the
    line [Generated:] and inside each of the three calls of [get_upcoming]. *)
Record ReportClock := mkReportClock {
  at_header : datetime;
  at_30 : datetime;
  at_60 : datetime;
  at_90 : datetime
}.

(** [active = [tm for tm in self.trademarks if tm['status'] == 'active']] *)
Definition active_trademarks (self : TrademarkTracker) : list Trademark :=
  List.filter (fun tm => (tm_status tm =? "active")%string) (trademarks self).

(** The lines printed before the first call of [get_upcoming], one string
    per call of [print]. *)
Definition report_head (clock : ReportClock) (self : TrademarkTracker)
  : list string :=
  [ line_feed +:+ rule80;
    "DR. GREENTHUMB TRADEMARK PORTFOLIO";
    "Generated: " +:+ strftime_minute (at_header clock);
    rule80 +:+ line_feed;
    "Total Active: " +:+ pretty (length (active_trademarks self))
    +:+ line_feed ].

(** The three lists [upcoming_30], [upcoming_60] and [upcoming_90]. *)
Definition report_lists (clock : ReportClock) (self : TrademarkTracker)
  : outcome (list Upcoming * list Upcoming * list Upcoming) :=
  upcoming_30 ← (get_upcoming (at_30 clock) 30 self).1;
  upcoming_60 ← (get_upcoming (at_60 clock) 60 self).1;
  upcoming_90 ← (get_upcoming (at_90 clock) 90 self).1;
  mret (upcoming_30, upcoming_60, upcoming_90).

(** The two lines of one urgent renewal. *)
Definition urgent_lines (tm : Upcoming) : list string :=
  [ "  - " +:+ tm_name (u_tm tm) +:+ " (" +:+ tm_jurisdiction (u_tm tm) +:+ ")";
    "    Due: " +:+ tm_renewal_date (u_tm tm) +:+ " ("
    +:+ pretty (days_until tm) +:+ " days)" ].

(** The lines printed after the three calls. *)
Definition report_alerts
    (lists : list Upcoming * list Upcoming * list Upcoming) : list string :=
  let '(upcoming_30, upcoming_60, upcoming_90) := lists in
  [ "RENEWAL ALERTS:";
    "  🔴 Within 30 days: " +:+ pretty (length upcoming_30);
    "  🟠 Within 60 days: " +:+ pretty (length upcoming_60);
    "  🟡 Within 90 days: " +:+ pretty (length upcoming_90) +:+ line_feed ]
  ++ match upcoming_30 with
     | [] => []
     | _ :: _ =>
         ["URGENT RENEWALS (30 days):"]
         ++ flat_map urgent_lines upcoming_30 ++ [""]
     end
  ++ [rule80].

(** [generate_report]: the lines printed, and how the call ends. *)
Definition generate_report (clock : ReportClock) (self : TrademarkTracker)
  : list string * outcome () :=
  match report_lists clock self with
  | Returned lists =>
      (report_head clock self ++ report_alerts lists, Returned ())
  | Raised e => (report_head clock self, Raised e)
  end.

End Tracker.

(** ** integrations/calendar_sync.py *)

Module Calendar.

(** [load_trademarks]: no guard and no handler around the read. *)
Definition load_trademarks (fs : gmap string (contents Trademark))
    (file : string) : outcome (list Trademark) :=
  open_and_load fs file.

(** The line feed, [chr(10)]. *)
Definition nl : string := String "010"%char EmptyString.

(** [s.replace(c, by)] for a pattern [c] of one character. *)
Fixpoint replace_char (c : ascii) (by_ : string) (s : string) : string :=
  match s with
  | EmptyString => EmptyString
  | String x s' =>
      if Ascii.eqb x c then by_ +:+ replace_char c by_ s'
      else String x (replace_char c by_ s')
  end.

Definition ICAL_HEADER : string :=
  "BEGIN:VCALENDAR" +:+ nl +:+
  "VERSION:2.0" +:+ nl +:+
  "PRODID:-//Dr. Greenthumb//Trademark Tracker//EN" +:+ nl +:+
  "CALSCALE:GREGORIAN" +:+ nl +:+
  "METHOD:PUBLISH" +:+ nl +:+
  "X-WR-CALNAME:Trademark Deadlines" +:+ nl +:+
  "X-WR-TIMEZONE:America/Los_Angeles" +:+ nl +:+
  "X-WR-CALDESC:Dr. Greenthumb trademark renewal deadlines" +:+ nl.

Definition event_uid (trademark : Trademark) (event_type : string) : string :=
  pretty (tm_id trademark) +:+ "-" +:+ replace_char " "%char "-" event_type
  +:+ "@drgreenthumbtm.com".

Definition event_summary (trademark : Trademark) (event_type : string)
  : string :=
  "TM: " +:+ tm_name trademark +:+ " - " +:+ event_type.

Definition event_description (trademark : Trademark) : string :=
  "Trademark: " +:+ tm_name trademark +:+ nl +:+
  "Jurisdiction: " +:+ tm_jurisdiction trademark +:+ nl +:+
  "Renewal Date: " +:+ tm_renewal_date trademark +:+ nl +:+
  "Registration: " +:+ default "N/A" (tm_registration_number trademark) +:+ nl +:+
  nl +:+
  "Action: Review renewal requirements and prepare filing" +:+ nl +:+
  nl +:+
  "View in tracker: https://github.com/raphaelhaddock-blip/dr-greenthumb-trademark-tracker".

(** [_create_event]; [event_date] is the day of the event. In the
    description every line feed becomes the two characters [\n] (the
    replacement sits inside the braces of an f-string, which Python accepts
    from version 3.12 on). *)
Definition _create_event (now : datetime) (trademark : Trademark)
    (event_date : Z) (event_type : string) : string :=
  let uid := event_uid trademark event_type in
  let timestamp := strftime_stamp now in
  let event_date_str := strftime_Ymd event_date in
  let summary := event_summary trademark event_type in
  let description := event_description trademark in
  "BEGIN:VEVENT" +:+ nl +:+
  "UID:" +:+ uid +:+ nl +:+
  "DTSTAMP:" +:+ timestamp +:+ nl +:+
  "DTSTART;VALUE=DATE:" +:+ event_date_str +:+ nl +:+
  "SUMMARY:" +:+ summary +:+ nl +:+
  "DESCRIPTION:" +:+ replace_char "010"%char "\n" description +:+ nl +:+
  "STATUS:CONFIRMED" +:+ nl +:+
  "SEQUENCE:0" +:+ nl +:+
  "BEGIN:VALARM" +:+ nl +:+
  "TRIGGER:-P1D" +:+ nl +:+
  "ACTION:DISPLAY" +:+ nl +:+
  "DESCRIPTION:Reminder" +:+ nl +:+
  "END:VALARM" +:+ nl +:+
  "END:VEVENT" +:+ nl.

(** The body of the inner loop of [generate_ical]. *)
Definition reminder_step (now : datetime) (tm : Trademark) (renewal_date : Z)
    (ical_content : string) (days_before : Z) : outcome string :=
  alert_date ← date_add_days renewal_date (- days_before);
  let event :=
    _create_event now tm alert_date (pretty days_before +:+ "-day reminder") in
  mret (ical_content +:+ event).

(** The inner loop of [generate_ical], over [[90, 60, 30, 7]]. *)
Definition reminders_loop (now : datetime) (tm : Trademark) (renewal_date : Z)
    (ical_content : string) : outcome string :=
  fold_left
    (fun acc days_before =>
       ical_content ← acc;
       reminder_step now tm renewal_date ical_content days_before)
    [90; 60; 30; 7] (mret ical_content).

(** The body of the outer loop of [generate_ical]. *)
Definition ical_step (now : datetime) (ical_content : string) (tm : Trademark)
  : outcome string :=
  if negb (tm_status tm =? "active")%string then mret ical_content
  else
    renewal_date ← fromisoformat (tm_renewal_date tm);
    ical_content ← reminders_loop now tm renewal_date ical_content;
    let deadline_event := _create_event now tm renewal_date "RENEWAL DEADLINE" in
    mret (ical_content +:+ deadline_event).

(** [generate_ical]: the text written to [output_file]. *)
Definition generate_ical (now : datetime) (self : list Trademark)
  : outcome string :=
  ical_content ←
    fold_left (fun acc tm => ical_content ← acc; ical_step now ical_content tm)
              self (mret ICAL_HEADER);
  mret (ical_content +:+ "END:VCALENDAR").

(** The text of a list of pieces, one after the other. *)
Definition str_concat (pieces : list string) : string :=
  foldr String.append "" pieces.

(** Lines, each closed by a line feed. *)
Definition unlines (lines : list string) : string :=
  str_concat (map (fun line => line +:+ nl) lines).

(** The lines of a [VEVENT] block with its [VALARM]. *)
Definition vevent_lines (uid dtstamp dtstart summary description : string)
  : list string :=
  [ "BEGIN:VEVENT";
    "UID:" +:+ uid;
    "DTSTAMP:" +:+ dtstamp;
    "DTSTART;VALUE=DATE:" +:+ dtstart;
    "SUMMARY:" +:+ summary;
    "DESCRIPTION:" +:+ description;
    "STATUS:CONFIRMED";
    "SEQUENCE:0";
    "BEGIN:VALARM";
    "TRIGGER:-P1D";
    "ACTION:DISPLAY";
    "DESCRIPTION:Reminder";
    "END:VALARM";
    "END:VEVENT" ].

(** The events of one active trademark whose renewal day is [renewal]. *)
Definition events_of (now : datetime) (tm : Trademark) (renewal : Z)
  : list string :=
  [ _create_event now tm (renewal - 90) "90-day reminder";
    _create_event now tm (renewal - 60) "60-day reminder";
    _create_event now tm (renewal - 30) "30-day reminder";
    _create_event now tm (renewal - 7) "7-day reminder";
    _create_event now tm renewal "RENEWAL DEADLINE" ].

(** The events of one record: none unless its status is [active]. *)
Definition trademark_events (now : datetime) (tm : Trademark) : list string :=
  if (tm_status tm =? "active")%string then
    match fromisoformat (tm_renewal_date tm) with
    | Returned renewal => events_of now tm renewal
    | Raised _ => []
    end
  else [].

(** The events of a collection, in the order of its records. *)
Definition calendar_events (now : datetime) (tms : list Trademark)
  : list string :=
  flat_map (trademark_events now) tms.

(** The renewal date of an active record can be read and the reminder of
    90 days before it falls on a date (on 0001-01-01 or later). *)
Definition schedulable (tm : Trademark) : Prop :=
  tm_status tm = "active" ->
  exists renewal,
    fromisoformat (tm_renewal_date tm) = Returned renewal /\ 91 <= renewal.

(** *** [generate_google_calendar_links] and [export_reminders_markdown] *)

(** The dictionaries of [generate_google_calendar_links]. *)
Record Link := mkLink {
  l_trademark : string;
  l_jurisdiction : string;
  l_date : string;
  l_link : string
}.

Definition link_params (tm : Trademark) (date_str : string) : string :=
  let title :=
    "TM Renewal: " +:+ tm_name tm +:+ " (" +:+ tm_jurisdiction tm +:+ ")" in
  let details :=
    "Registration: " +:+ default "N/A" (tm_registration_number tm) in
  "action=TEMPLATE&text=" +:+ title +:+ "&dates=" +:+ date_str +:+ "/"
  +:+ date_str +:+ "&details=" +:+ details.

Definition make_link (tm : Trademark) (renewal_date : Z) : Link :=
  let date_str := strftime_Ymd renewal_date in
  let base_url := "https://calendar.google.com/calendar/render" in
  let params := link_params tm date_str in
  {| l_trademark := tm_name tm;
     l_jurisdiction := tm_jurisdiction tm;
     l_date := tm_renewal_date tm;
     l_link := base_url +:+ "?" +:+ replace_char " "%char "+" params |}.

(** The body of the loop of [generate_google_calendar_links]. *)
Definition link_step (links : list Link) (tm : Trademark)
  : outcome (list Link) :=
  if negb (tm_status tm =? "active")%string then mret links
  else
    renewal_date ← fromisoformat (tm_renewal_date tm);
    mret (links ++ [make_link tm renewal_date]).

Definition generate_google_calendar_links (self : list Trademark)
  : outcome (list Link) :=
  fold_left (fun acc tm => links ← acc; link_step links tm) self (mret []).

Definition SETUP_HEADER : string :=
  "# Trademark Deadline Calendar Setup" +:+ nl +:+
  nl +:+
  "## Option 1: Import iCal File" +:+ nl +:+
  nl +:+
  "1. Generate the calendar file:" +:+ nl +:+
  "   ```bash" +:+ nl +:+
  "   python integrations/calendar_sync.py" +:+ nl +:+
  "   ```" +:+ nl +:+
  nl +:+
  "2. Import `trademark_deadlines.ics` into your calendar app:" +:+ nl +:+
  "   - **Google Calendar:** Settings → Import & Export → Import" +:+ nl +:+
  "   - **Outlook:** File → Open & Export → Import/Export" +:+ nl +:+
  "   - **Apple Calendar:** File → Import → Select file" +:+ nl +:+
  nl +:+
  "## Option 2: Quick Add to Google Calendar" +:+ nl +:+
  nl +:+
  "Click these links to add individual deadlines:" +:+ nl +:+
  nl.

Definition SETUP_FOOTER : string :=
  "## Reminder Schedule" +:+ nl +:+
  nl +:+
  "For each trademark, you'll receive reminders:" +:+ nl +:+
  "- 📅 90 days before renewal" +:+ nl +:+
  "- 📅 60 days before renewal  " +:+ nl +:+
  "- 📅 30 days before renewal" +:+ nl +:+
  "- 📅 7 days before renewal" +:+ nl +:+
  "- 📅 On renewal deadline" +:+ nl +:+
  nl +:+
  "## Automated Updates" +:+ nl +:+
  nl +:+
  "The calendar file is automatically regenerated weekly by GitHub Actions."
  +:+ nl +:+
  "Re-import the latest file to stay synced." +:+ nl.

(** The three pieces appended for one link. *)
Definition link_section (link_data : Link) : string :=
  ("### " +:+ l_trademark link_data +:+ " - " +:+ l_jurisdiction link_data
   +:+ nl)
  +:+ ("**Renewal Date:** " +:+ l_date link_data +:+ nl +:+ nl)
  +:+ ("[Add to Google Calendar](" +:+ l_link link_data +:+ ")" +:+ nl +:+ nl).

(** [export_reminders_markdown]: the text written to [output_file]. *)
Definition export_reminders_markdown (self : list Trademark) : outcome string :=
  links ← generate_google_calendar_links self;
  let content :=
    fold_left (fun content link_data => content +:+ link_section link_data)
              links SETUP_HEADER in
  mret (content +:+ SETUP_FOOTER).

(** The links of a collection: one for each active record, in order. *)
Definition links_of (tms : list Trademark) : list Link :=
  flat_map
    (fun tm =>
       if (tm_status tm =? "active")%string then
         match fromisoformat (tm_renewal_date tm) with
         | Returned renewal_date => [make_link tm renewal_date]
         | Raised _ => []
         end
       else [])
    tms.

(** The main block of the module: the collection is read from
    [trademarks.json], then the two files are written one after the other.
    [texts] are the text files, a second view of the file system. *)
Definition main (now : datetime) (fs : gmap string (contents Trademark))
    (texts : gmap string string) : gmap string string * outcome () :=
  match load_trademarks fs "trademarks.json" with
  | Raised e => (texts, Raised e)
  | Returned self =>
      match generate_ical now self with
      | Raised e => (texts, Raised e)
      | Returned ical_content =>
          let texts := <["trademark_deadlines.ics" := ical_content]> texts in
          match export_reminders_markdown self with
          | Raised e => (texts, Raised e)
          | Returned content =>
              (<["CALENDAR_SETUP.md" := content]> texts, Returned ())
          end
      end
  end.

End Calendar.

(** ** The specification's wording, for comparison with the code *)

Module Spec.

(** Case-insensitive equality of two territory names. *)
Definition same_territory (a b : string) : bool :=
  (lower a =? lower b)%string.

(** A pair counted by the specification: a pending or abandoned trademark
    and an active agreement one of whose territories is the trademark's
    jurisdiction, case-insensitively. *)
Definition conflict_pair (p : Trademark * Agreement) : bool :=
  let '(tm, ag) := p in
  Licensing.unfiled tm
  && (ag_status ag =? "active")%string
  && existsb (same_territory (tm_jurisdiction tm)) (Licensing.territories_of ag).

Definition conflict_count (tms : list Trademark) (ags : list Agreement) : nat :=
  length (List.filter conflict_pair (list_prod tms ags)).

(** The union of the lowercased territories of the active agreements. *)
Definition licensed (ags : list Agreement) : gset string :=
  ⋃ (map (fun a => list_to_set (map lower (Licensing.territories_of a)))
         (List.filter (fun a => (ag_status a =? "active")%string) ags)).

(** The lowercased jurisdictions of the active trademarks. *)
Definition protected (tms : list Trademark) : gset string :=
  list_to_set
    (map (fun tm => lower (tm_jurisdiction tm))
         (List.filter (fun tm => (tm_status tm =? "active")%string) tms)).

End Spec.

(** ** Sample records *)

Module Fixtures.

(** A pending trademark in Nevada and an active agreement that spells the
    territory with a capital letter. *)
Definition nevada_pending : Trademark :=
  mkTrademark 5 "DR. GREENTHUMB" "Nevada" "2025-01-10" "2035-01-10" "pending"
              None None.

Definition nevada_agreement : Agreement :=
  mkAgreement 7 "Silver State Gardens" (Some ["Nevada"]) "active".

(** Readings of the clock on 2025-10-16 (ordinal 739540) and on the next
    day. *)
Definition morning_oct16 : datetime := mkDatetime 739540 9 30 0 0.
Definition evening_oct16 : datetime := mkDatetime 739540 21 5 12 250000.
Definition morning_oct17 : datetime := mkDatetime 739541 9 30 0 0.

(** A portfolio: two records due on 2025-11-15 (30 days after 2025-10-16),
    one due after 65 days, one after 25 days, and a pending one. *)
Definition greenthumb : Trademark :=
  mkTrademark 1 "DR. GREENTHUMB" "Arizona" "2015-11-15" "2025-11-15" "active"
              (Some "AZ-556677") None.

Definition greenthumb_late : Trademark :=
  mkTrademark 4 "GREENTHUMB SEEDS" "Illinois" "2015-12-20" "2025-12-20" "active"
              None None.

Definition insane_og : Trademark :=
  mkTrademark 2 "INSANE OG" "California" "2015-11-10" "2025-11-10" "active"
              None None.

Definition greenthumb_logo : Trademark :=
  mkTrademark 3 "DR. GREENTHUMB LOGO" "Arizona" "2015-11-15" "2025-11-15"
              "active" None None.

Definition portfolio : Tracker.TrademarkTracker :=
  Tracker.mkTracker
    [greenthumb; greenthumb_late; insane_og; nevada_pending; greenthumb_logo].

(** A stored collection from which the record with [id] 1 was taken out. *)
Definition gapped : Tracker.TrademarkTracker :=
  Tracker.mkTracker [insane_og; greenthumb_logo].

Definition add_call : Tracker.AddCall :=
  Tracker.mkAddCall morning_oct16 "DR. GREENTHUMB" "Arizona" "2025-11-15"
                    "2035-11-15".

End Fixtures.

(** * Properties *)

(** ** Territory conflicts *)

Section licensing_facts.
Import Licensing.

Lemma fold_left_append_if {A B} (p : A -> bool) (f : A -> B) (l : list A)
    (acc : list B) :
  fold_left (fun acc x => if p x then acc ++ [f x] else acc) l acc
  = acc ++ map f (List.filter p l).
Proof.
  revert acc; induction l as [|x l IH]; intros acc; simpl.
  - by rewrite app_nil_r.
  - rewrite IH. destruct (p x); simpl.
    + by rewrite <- app_assoc.
    + done.
Qed.

(** What [_check_unfiled_territory] returns: one record per agreement that
    passes the two tests, in the order of the agreements. *)
Lemma _check_unfiled_territory_eq self tm :
  _check_unfiled_territory self tm
  = map (make_conflict tm)
        (List.filter (agreement_conflicts tm) (licensing_agreements self)).
Proof. unfold _check_unfiled_territory. by rewrite fold_left_append_if. Qed.

(** What [check_territory_conflicts] returns. *)
Lemma check_territory_conflicts_eq self :
  check_territory_conflicts self
  = flat_map (_check_unfiled_territory self)
             (List.filter unfiled (trademarks self)).
Proof.
  unfold check_territory_conflicts.
  generalize (trademarks self) as tms. intros tms.
  rewrite <- (app_nil_l (flat_map _ _)).
  generalize (@nil Conflict) as acc.
  induction tms as [|tm tms IH]; intros acc; simpl.
  - by rewrite app_nil_r.
  - rewrite IH. destruct (unfiled tm); simpl; [|done].
    destruct (_check_unfiled_territory self tm); simpl.
    + done.
    + by rewrite <- app_assoc.
Qed.

Lemma filter_pair_row {A B} (p : A -> bool) (q : A -> B -> bool) (x : A)
    (l' : list B) :
  List.filter (fun xy : A * B => p xy.1 && q xy.1 xy.2) (map (pair x) l')
  = if p x then map (pair x) (List.filter (q x) l') else [].
Proof.
  induction l' as [|y l' IH]; simpl.
  - by destruct (p x).
  - rewrite IH. destruct (p x); simpl; [|done]. by destruct (q x y).
Qed.

Lemma filter_list_prod_length {A B} (p : A -> bool) (q : A -> B -> bool)
    (l : list A) (l' : list B) :
  length (List.filter (fun xy => p xy.1 && q xy.1 xy.2) (list_prod l l'))
  = length (flat_map (fun x => List.filter (q x) l') (List.filter p l)).
Proof.
  induction l as [|x l IH]; simpl; [done|].
  rewrite List.filter_app, length_app, IH, filter_pair_row.
  destruct (p x); simpl; [|done].
  by rewrite length_app, length_map.
Qed.

(** The number of records is the number of (trademark, agreement) pairs that
    pass the tests of the code; nothing is merged. *)
Lemma check_territory_conflicts_length self :
  length (check_territory_conflicts self)
  = length (List.filter emitting_pair
              (list_prod (trademarks self) (licensing_agreements self))).
Proof.
  rewrite check_territory_conflicts_eq.
  unfold emitting_pair.
  rewrite (filter_list_prod_length unfiled agreement_conflicts).
  induction (List.filter unfiled (trademarks self)) as [|tm l IH]; simpl; [done|].
  rewrite !length_app, IH, _check_unfiled_territory_eq. by rewrite length_map.
Qed.

Lemma check_territory_conflicts_high self c :
  In c (check_territory_conflicts self) -> c_risk_level c = "HIGH".
Proof.
  rewrite check_territory_conflicts_eq, in_flat_map.
  intros (tm & _ & Hc). rewrite _check_unfiled_territory_eq, in_map_iff in Hc.
  by destruct Hc as (ag & <- & _).
Qed.

(** A territory name that [lower] leaves as it is. *)
Lemma str_in_existsb_lower j ts :
  Forall (fun t => lower t = t) ts ->
  str_in (lower j) ts = existsb (Spec.same_territory j) ts.
Proof.
  unfold str_in.
  induction 1 as [|t ts Ht _ IH]; simpl; [done|].
  rewrite IH. unfold Spec.same_territory. by rewrite Ht.
Qed.

(** On agreements whose territories are all written in lower case, the
    records returned by [check_territory_conflicts] are as many as the pairs
    the specification counts. *)
Lemma check_territory_conflicts_count_lowercase self :
  Forall (fun ag => Forall (fun t => lower t = t) (territories_of ag))
         (licensing_agreements self) ->
  length (check_territory_conflicts self)
  = Spec.conflict_count (trademarks self) (licensing_agreements self).
Proof.
  intros Hlow. rewrite check_territory_conflicts_length.
  unfold Spec.conflict_count. f_equal.
  apply filter_ext_in. intros [tm ag] Hin.
  apply in_prod_iff in Hin as [_ Hag].
  rewrite Forall_forall in Hlow. specialize (Hlow ag).
  unfold emitting_pair, agreement_conflicts, Spec.conflict_pair; simpl.
  rewrite str_in_existsb_lower by (apply Hlow; by apply list_elem_of_In).
  destruct (unfiled tm), (ag_status ag =? "active")%string,
    (existsb _ _); done.
Qed.

(** C1. The count of conflict records is the number of pairs of a pending or
    abandoned trademark and an active agreement whose territories contain
    the jurisdiction case-insensitively. The code lowers the jurisdiction
    only: for a pending trademark in [Nevada] and an active agreement over
    the territory spelt [Nevada] the specification counts one pair, the
    territory report counts [nevada] as licensed and unprotected, and
    [check_territory_conflicts] returns no record. *)
Theorem C1_capitalised_territory_is_missed :
  let self := mkConnector [Fixtures.nevada_pending] [Fixtures.nevada_agreement] in
  Spec.conflict_count (trademarks self) (licensing_agreements self) = 1%nat
  /\ check_territory_conflicts self = []
  /\ unprotected self = {[ "nevada" ]}.
Proof.
  simpl. split; [reflexivity|]. split; [reflexivity|].
  unfold unprotected, licensed_territories, protected_territories. simpl.
  set_solver.
Qed.

(** ** Territory coverage *)

Lemma fold_left_add_lower (l : list string) (acc : gset string) :
  fold_left (fun licensed territory => licensed ∪ {[ lower territory ]}) l acc
  = acc ∪ list_to_set (map lower l).
Proof.
  revert acc; induction l as [|t l IH]; intros acc; simpl.
  - set_solver.
  - rewrite IH. set_solver.
Qed.

Lemma licensed_territories_eq self :
  licensed_territories self = Spec.licensed (licensing_agreements self).
Proof.
  unfold licensed_territories, Spec.licensed.
  rewrite <- (left_id_L ∅ (∪) (⋃ _)).
  generalize (∅ : gset string) as acc.
  induction (licensing_agreements self) as [|ag ags IH]; intros acc; simpl.
  - set_solver.
  - rewrite IH. destruct (ag_status ag =? "active")%string; simpl; [|done].
    rewrite fold_left_add_lower. set_solver.
Qed.

Lemma protected_territories_eq self :
  protected_territories self = Spec.protected (trademarks self).
Proof.
  unfold protected_territories, Spec.protected.
  rewrite <- (left_id_L ∅ (∪) (list_to_set _)).
  generalize (∅ : gset string) as acc.
  induction (trademarks self) as [|tm tms IH]; intros acc; simpl.
  - set_solver.
  - rewrite IH. destruct (tm_status tm =? "active")%string; simpl; [|done].
    set_solver.
Qed.

(** C2. The unprotected set of [generate_territory_report] is the union of
    the lowercased territories of the active agreements minus the lowercased
    jurisdictions of the active trademarks, and the list the report returns
    has exactly its elements. With one active agreement over [texas] the set
    is empty beside an active trademark in [Texas], and is [{texas}] when
    there is no trademark. *)
Theorem C2_unprotected_is_licensed_minus_protected :
  (forall self,
     unprotected self
     = Spec.licensed (licensing_agreements self) ∖ Spec.protected (trademarks self)
     /\ list_to_set (r_unprotected (generate_territory_report self))
        = unprotected self)
  /\ (forall ag_id licensee tm_id name filed renewal reg created,
        unprotected
          (mkConnector
             [mkTrademark tm_id name "Texas" filed renewal "active" reg created]
             [mkAgreement ag_id licensee (Some ["texas"]) "active"])
        = ∅)
  /\ (forall ag_id licensee,
        unprotected
          (mkConnector [] [mkAgreement ag_id licensee (Some ["texas"]) "active"])
        = {[ "texas" ]}).
Proof.
  split; [|split].
  - intros self. split.
    + unfold unprotected.
      by rewrite licensed_territories_eq, protected_territories_eq.
    + simpl. apply list_to_set_elements_L.
  - intros. unfold unprotected, licensed_territories, protected_territories.
    simpl. set_solver.
  - intros. unfold unprotected, licensed_territories, protected_territories.
    simpl. set_solver.
Qed.

End licensing_facts.

(** ** Stable sorting *)

Section sorted_facts.
Context {A : Type} (key : A -> Z).

Lemma in_insert_by x y l : In y (insert_by key x l) <-> y = x \/ In y l.
Proof.
  induction l as [|z l IH]; simpl.
  - intuition congruence.
  - destruct (key x <=? key z); simpl; [intuition congruence|].
    rewrite IH. intuition congruence.
Qed.

Lemma in_sorted y l : In y (sorted key l) <-> In y l.
Proof.
  induction l as [|x l IH]; simpl; [done|].
  rewrite in_insert_by, IH. intuition congruence.
Qed.

Lemma length_insert_by x l : length (insert_by key x l) = S (length l).
Proof.
  induction l as [|z l IH]; simpl; [done|].
  destruct (key x <=? key z); simpl; by rewrite ?IH.
Qed.

Lemma length_sorted l : length (sorted key l) = length l.
Proof.
  induction l as [|x l IH]; simpl; [done|].
  by rewrite length_insert_by, IH.
Qed.

Lemma insert_by_ordered x l :
  StronglySorted (key_le key) l -> StronglySorted (key_le key) (insert_by key x l).
Proof.
  induction 1 as [|z l Hl IH Hz]; simpl.
  - repeat constructor.
  - destruct (key x <=? key z) eqn:Hxz.
    + apply Z.leb_le in Hxz. constructor; [by constructor|].
      constructor; [done|].
      eapply Forall_impl; [exact Hz|]. unfold key_le; simpl; lia.
    + apply Z.leb_gt in Hxz. constructor; [done|].
      rewrite Forall_forall. intros y Hy. apply list_elem_of_In in Hy.
      apply in_insert_by in Hy as [->|Hy].
      * unfold key_le; lia.
      * rewrite Forall_forall in Hz. apply Hz. by apply list_elem_of_In.
Qed.

Lemma sorted_ordered l : StronglySorted (key_le key) (sorted key l).
Proof.
  induction l as [|x l IH]; simpl; [constructor|]. by apply insert_by_ordered.
Qed.

(** Elements of one key keep their relative order. *)
Lemma filter_insert_by k x l :
  List.filter (fun y => key y =? k) (insert_by key x l)
  = List.filter (fun y => key y =? k) (x :: l).
Proof.
  induction l as [|z l IH]; simpl; [done|].
  destruct (key x <=? key z) eqn:Hxz; simpl; [done|].
  rewrite IH. simpl. apply Z.leb_gt in Hxz.
  destruct (key x =? k) eqn:Hx, (key z =? k) eqn:Hz; try done.
  apply Z.eqb_eq in Hx, Hz. lia.
Qed.

Lemma sorted_stable k l :
  List.filter (fun y => key y =? k) (sorted key l)
  = List.filter (fun y => key y =? k) l.
Proof.
  induction l as [|x l IH]; simpl; [done|].
  rewrite filter_insert_by. simpl. by rewrite IH.
Qed.

End sorted_facts.

(** ** Renewal windows *)

Section tracker_facts.
Import Tracker.

Lemma date_add_days_returned d days r :
  date_add_days d days = Returned r <-> horizon_ok d days /\ r = d + days.
Proof.
  unfold date_add_days, horizon_ok, MAXORDINAL.
  destruct (Z.abs days <=? 999999999) eqn:H1; simpl.
  - destruct (1 <=? d + days) eqn:H2; simpl.
    + destruct (d + days <=? 3652059) eqn:H3; simpl.
      * apply Z.leb_le in H1, H2, H3. split.
        -- intros [= <-]. lia.
        -- intros [_ ->]. done.
      * apply Z.leb_gt in H3. split; [done|lia].
    + apply Z.leb_gt in H2. split; [done|lia].
  - apply Z.leb_gt in H1. split; [done|lia].
Qed.

(** One turn of the loop appends [entry_of], or raises when the renewal date
    of an active record cannot be read. *)
Lemma upcoming_step_returned today threshold upcoming tm res :
  upcoming_step today threshold upcoming tm = Returned res
  <-> well_dated tm /\ res = upcoming ++ entry_of today threshold tm.
Proof.
  unfold upcoming_step, entry_of, well_dated.
  destruct (tm_status tm =? "active")%string eqn:Hs; simpl.
  - apply String.eqb_eq in Hs.
    destruct (fromisoformat (tm_renewal_date tm)) as [renewal|e]; simpl.
    + destruct ((today <=? renewal) && (renewal <=? threshold)); simpl.
      * split; [intros [= <-]; eauto | by intros [_ ->]].
      * rewrite app_nil_r. split; [intros [= <-]; eauto | by intros [_ ->]].
    + split; [done|]. intros [Hw _]. by destruct (Hw Hs).
  - apply String.eqb_neq in Hs. rewrite app_nil_r.
    split; [intros [= <-]; split; [done|done] | by intros [_ ->]].
Qed.

Lemma fold_left_raised today threshold tms e :
  fold_left (fun acc tm => upcoming ← acc; upcoming_step today threshold upcoming tm)
            tms (Raised e) = Raised e.
Proof. induction tms as [|tm tms IH]; simpl; [done|apply IH]. Qed.

Lemma upcoming_fold_returned today threshold tms acc res :
  fold_left (fun acc tm => upcoming ← acc; upcoming_step today threshold upcoming tm)
            tms (Returned acc) = Returned res
  <-> Forall well_dated tms /\ res = acc ++ entries today threshold tms.
Proof.
  revert acc; induction tms as [|tm tms IH]; intros acc; simpl.
  - rewrite app_nil_r. split; [intros [= <-]; by split | by intros [_ ->]].
  - change (Returned acc ≫= _) with (upcoming_step today threshold acc tm).
    destruct (upcoming_step today threshold acc tm) as [acc'|e] eqn:Hstep.
    + apply upcoming_step_returned in Hstep as [Hw ->].
      rewrite IH, <- app_assoc, Forall_cons. unfold entries. tauto.
    + rewrite fold_left_raised. split; [done|].
      intros [Hf ->]. apply Forall_cons in Hf as [Hw _].
      assert (Hr : upcoming_step today threshold acc tm
                   = Returned (acc ++ entry_of today threshold tm))
        by by apply upcoming_step_returned.
      congruence.
Qed.

Lemma upcoming_loop_returned today threshold tms res :
  upcoming_loop today threshold tms = Returned res
  <-> Forall well_dated tms /\ res = entries today threshold tms.
Proof. apply (upcoming_fold_returned today threshold tms []). Qed.

(** When [get_upcoming] returns, and what. *)
Lemma get_upcoming_returned now days self res :
  (get_upcoming now days self).1 = Returned res
  <-> horizon_ok (dt_date now) days
      /\ Forall well_dated (trademarks self)
      /\ res = sorted days_until
                 (entries (dt_date now) (dt_date now + days) (trademarks self)).
Proof.
  unfold get_upcoming; simpl.
  destruct (date_add_days (dt_date now) days) as [threshold|e] eqn:Hadd; simpl.
  - apply date_add_days_returned in Hadd as [Hh ->].
    change (Returned (dt_date now + days) ≫= _)
      with (upcoming ← upcoming_loop (dt_date now) (dt_date now + days)
                                     (trademarks self);
            mret (sorted days_until upcoming)).
    destruct (upcoming_loop _ _ _) as [ups|e] eqn:Hloop; simpl.
    + apply upcoming_loop_returned in Hloop as [Hw ->].
      split; [intros [= <-]; auto | by intros (_ & _ & ->)].
    + split; [done|]. intros (_ & Hw & _).
      assert (Hr : upcoming_loop (dt_date now) (dt_date now + days)
                     (trademarks self)
                   = Returned (entries (dt_date now) (dt_date now + days)
                                       (trademarks self)))
        by by apply upcoming_loop_returned.
      congruence.
  - split; [done|]. intros (Hh & _).
    assert (Hr : date_add_days (dt_date now) days
                 = Returned (dt_date now + days))
      by by apply date_add_days_returned.
    congruence.
Qed.

(** The call returns on a collection whose active records are dated, for a
    horizon that ends on a date. *)
Lemma get_upcoming_total now days self :
  horizon_ok (dt_date now) days ->
  Forall well_dated (trademarks self) ->
  exists res, (get_upcoming now days self).1 = Returned res.
Proof. intros Hh Hw. eexists. by apply get_upcoming_returned. Qed.

Lemma in_entry_of today threshold tm u :
  In u (entry_of today threshold tm)
  <-> u_tm u = tm /\ tm_status tm = "active"
      /\ exists renewal,
           fromisoformat (tm_renewal_date tm) = Returned renewal
           /\ days_until u = renewal - today
           /\ today <= renewal <= threshold.
Proof.
  unfold entry_of.
  destruct (tm_status tm =? "active")%string eqn:Hs.
  - apply String.eqb_eq in Hs.
    destruct (fromisoformat (tm_renewal_date tm)) as [renewal|e].
    + destruct (today <=? renewal) eqn:H1; simpl.
      * destruct (renewal <=? threshold) eqn:H2; simpl.
        -- apply Z.leb_le in H1, H2. split.
           ++ intros [<-|[]]. simpl. eauto 10.
           ++ intros (Htm & _ & r & [= <-] & Hd & _). left.
              destruct u; simpl in *; congruence.
        -- apply Z.leb_gt in H2. split; [done|].
           intros (_ & _ & r & [= <-] & _ & ?). lia.
      * apply Z.leb_gt in H1. split; [done|].
        intros (_ & _ & r & [= <-] & _ & ?). lia.
    + simpl. split; [done|]. by intros (_ & _ & r & ? & _).
  - apply String.eqb_neq in Hs. simpl. split; [done|]. by intros (_ & ? & _).
Qed.

Lemma in_entries today threshold tms u :
  In u (entries today threshold tms)
  <-> In (u_tm u) tms /\ tm_status (u_tm u) = "active"
      /\ exists renewal,
           fromisoformat (tm_renewal_date (u_tm u)) = Returned renewal
           /\ days_until u = renewal - today
           /\ today <= renewal <= threshold.
Proof.
  unfold entries. rewrite in_flat_map. split.
  - intros (tm & Hin & Hu). apply in_entry_of in Hu as (<- & Hu). auto.
  - intros (Hin & Hu). exists (u_tm u). split; [done|].
    apply in_entry_of. auto.
Qed.

Lemma length_entries_mono today t1 t2 tms :
  t1 <= t2 ->
  (length (entries today t1 tms) <= length (entries today t2 tms))%nat.
Proof.
  intros Ht. unfold entries.
  induction tms as [|tm tms IH]; simpl; [done|].
  rewrite !length_app.
  assert ((length (entry_of today t1 tm) <= length (entry_of today t2 tm))%nat);
    [|lia].
  unfold entry_of.
  destruct (tm_status tm =? "active")%string; [|done].
  destruct (fromisoformat (tm_renewal_date tm)) as [renewal|e]; [|done].
  destruct (today <=? renewal); simpl; [|done].
  destruct (renewal <=? t1) eqn:H1; simpl; [|lia].
  apply Z.leb_le in H1. assert (H2 : (renewal <=? t2) = true) by (apply Z.leb_le; lia).
  by rewrite H2.
Qed.

(** The entries of one value of [days_until], against the input sequence. *)
Lemma filter_entries_days today threshold tms d :
  map u_tm (List.filter (fun u => days_until u =? d)
                        (entries today threshold tms))
  = List.filter
      (fun tm => due_in today d tm && (0 <=? d) && (today + d <=? threshold))
      tms.
Proof.
  unfold entries. induction tms as [|tm tms IH]; simpl; [done|].
  rewrite List.filter_app, map_app, IH. clear IH.
  unfold entry_of, due_in.
  destruct (tm_status tm =? "active")%string; simpl; [|done].
  destruct (fromisoformat (tm_renewal_date tm)) as [renewal|e]; simpl; [|done].
  destruct (today <=? renewal) eqn:H1; simpl.
  - apply Z.leb_le in H1.
    destruct (renewal <=? threshold) eqn:H2; simpl.
    + apply Z.leb_le in H2.
      destruct (renewal - today =? d) eqn:H3; simpl; [|done].
      apply Z.eqb_eq in H3.
      assert (H4 : (0 <=? d) = true) by (apply Z.leb_le; lia).
      assert (H5 : (today + d <=? threshold) = true) by (apply Z.leb_le; lia).
      by rewrite H4, H5.
    + apply Z.leb_gt in H2.
      destruct (renewal - today =? d) eqn:H3; simpl; [|done].
      apply Z.eqb_eq in H3.
      assert (H5 : (today + d <=? threshold) = false) by (apply Z.leb_gt; lia).
      by rewrite H5, andb_false_r.
  - apply Z.leb_gt in H1.
    destruct (renewal - today =? d) eqn:H3; simpl; [|done].
    apply Z.eqb_eq in H3.
    assert (H4 : (0 <=? d) = false) by (apply Z.leb_gt; lia).
    by rewrite H4.
Qed.

(** C3. The list returned by [get_upcoming] holds a trademark, with its
    [days_until], exactly when the trademark is in the collection, its
    status is [active] and [0 <= days_until <= days], where [days_until] is
    the renewal date minus the date of the call in whole days; no record of
    another status appears; a record due 30 days after the call is listed
    with [days_until = 30] for the horizon 30 and is not listed for the
    horizon 29. The call returns whenever the renewal dates of the active
    records can be read and the horizon ends on a date. *)
Theorem C3_get_upcoming_window now self :
  let today := dt_date now in
  (forall days,
     horizon_ok today days -> Forall well_dated (trademarks self) ->
     exists res, (get_upcoming now days self).1 = Returned res)
  /\ (forall days res,
        (get_upcoming now days self).1 = Returned res ->
        (forall tm d,
           In (mkUpcoming tm d) res
           <-> In tm (trademarks self) /\ tm_status tm = "active"
               /\ (exists renewal,
                     fromisoformat (tm_renewal_date tm) = Returned renewal
                     /\ d = renewal - today)
               /\ 0 <= d <= days)
        /\ (forall u, In u res -> tm_status (u_tm u) = "active"))
  /\ (forall tm,
        In tm (trademarks self) -> tm_status tm = "active" ->
        fromisoformat (tm_renewal_date tm) = Returned (today + 30) ->
        (forall res, (get_upcoming now 30 self).1 = Returned res ->
                     In (mkUpcoming tm 30) res)
        /\ (forall res, (get_upcoming now 29 self).1 = Returned res ->
                        forall d, ~ In (mkUpcoming tm d) res)).
Proof.
  intros today.
  assert (Hmem : forall days res,
    (get_upcoming now days self).1 = Returned res ->
    forall tm d,
      In (mkUpcoming tm d) res
      <-> In tm (trademarks self) /\ tm_status tm = "active"
          /\ (exists renewal,
                fromisoformat (tm_renewal_date tm) = Returned renewal
                /\ d = renewal - today)
          /\ 0 <= d <= days).
  { intros days res Hres tm d.
    apply get_upcoming_returned in Hres as (_ & _ & ->).
    rewrite in_sorted, in_entries. simpl. fold today. split.
    - intros (Hin & Hs & r & Hr & -> & Hw). repeat split; eauto; lia.
    - intros (Hin & Hs & (r & Hr & ->) & Hw). repeat split; eauto.
      exists r. repeat split; auto; lia. }
  split; [|split].
  - intros days. apply get_upcoming_total.
  - intros days res Hres. split; [by apply Hmem|].
    intros [tm d] Hu. by apply (Hmem _ _ Hres) in Hu as (_ & Hs & _).
  - intros tm Hin Hs Hr. split.
    + intros res Hres. apply (Hmem _ _ Hres). repeat split; eauto; try lia.
      exists (today + 30). split; [done|lia].
    + intros res Hres d Hd.
      apply (Hmem _ _ Hres) in Hd as (_ & _ & (r & Hr' & ->) & Hw).
      rewrite Hr in Hr'. injection Hr' as <-. lia.
Qed.

Lemma C3_get_upcoming_window_witness :
  exists res,
    (get_upcoming Fixtures.morning_oct16 30 Fixtures.portfolio).1 = Returned res
    /\ In (mkUpcoming Fixtures.greenthumb 30) res
    /\ ~ In (mkUpcoming Fixtures.nevada_pending 3373) res.
Proof.
  destruct (C3_get_upcoming_window Fixtures.morning_oct16 Fixtures.portfolio)
    as (Htotal & Hmem & Hdue).
  exists (sorted days_until
            (entries 739540 739570 (trademarks Fixtures.portfolio))).
  assert (Hres : (get_upcoming Fixtures.morning_oct16 30 Fixtures.portfolio).1
                 = Returned (sorted days_until
                     (entries 739540 739570 (trademarks Fixtures.portfolio))))
    by reflexivity.
  split; [exact Hres|]. split.
  - apply (Hdue Fixtures.greenthumb); [simpl; tauto|reflexivity|reflexivity|].
    exact Hres.
  - intros Hin. apply (Hmem _ _ Hres) in Hin as (_ & Hs & _). discriminate Hs.
Defined.

(** C6. For [h1 <= h2] every entry of the list returned for the horizon [h1]
    is an entry of the list returned for [h2], which is at least as long;
    so the lists for 30, 60 and 90 days grow in length. *)
Theorem C6_get_upcoming_monotone now self :
  (forall h1 h2 res1 res2,
     h1 <= h2 ->
     (get_upcoming now h1 self).1 = Returned res1 ->
     (get_upcoming now h2 self).1 = Returned res2 ->
     (forall u, In u res1 -> In u res2)
     /\ (length res1 <= length res2)%nat)
  /\ (forall res30 res60 res90,
        (get_upcoming now 30 self).1 = Returned res30 ->
        (get_upcoming now 60 self).1 = Returned res60 ->
        (get_upcoming now 90 self).1 = Returned res90 ->
        (length res30 <= length res60 <= length res90)%nat).
Proof.
  assert (Hmono : forall h1 h2 res1 res2,
    h1 <= h2 ->
    (get_upcoming now h1 self).1 = Returned res1 ->
    (get_upcoming now h2 self).1 = Returned res2 ->
    (forall u, In u res1 -> In u res2) /\ (length res1 <= length res2)%nat).
  { intros h1 h2 res1 res2 Hh H1 H2.
    apply get_upcoming_returned in H1 as (_ & _ & ->).
    apply get_upcoming_returned in H2 as (_ & _ & ->). split.
    - intros u. rewrite !in_sorted, !in_entries.
      intros (Hin & Hs & r & Hr & Hd & Hw). repeat split; auto.
      exists r. repeat split; auto; lia.
    - rewrite !length_sorted. apply length_entries_mono. lia. }
  split; [exact Hmono|].
  intros res30 res60 res90 H30 H60 H90. split.
  - by apply (Hmono 30 60 res30 res60).
  - by apply (Hmono 60 90 res60 res90).
Qed.

Lemma C6_get_upcoming_monotone_witness :
  exists res30 res90,
    (get_upcoming Fixtures.morning_oct16 30 Fixtures.portfolio).1 = Returned res30
    /\ (get_upcoming Fixtures.morning_oct16 90 Fixtures.portfolio).1
       = Returned res90
    /\ length res30 = 3%nat /\ length res90 = 4%nat
    /\ (forall u, In u res30 -> In u res90).
Proof.
  destruct (C6_get_upcoming_monotone Fixtures.morning_oct16 Fixtures.portfolio)
    as [Hmono _].
  eexists _, _. split; [reflexivity|]. split; [reflexivity|].
  split; [reflexivity|]. split; [reflexivity|].
  apply (Hmono 30 90 _ _ ltac:(lia) eq_refl eq_refl).
Defined.

(** C7. The list returned by [get_upcoming] is in ascending order of
    [days_until], and the entries of one value of [days_until] are the
    records of the input sequence that are due on that day, in the order of
    the input sequence. *)
Theorem C7_get_upcoming_sorted_stable now days self res :
  (get_upcoming now days self).1 = Returned res ->
  StronglySorted (key_le days_until) res
  /\ (forall d,
        map u_tm (List.filter (fun u => days_until u =? d) res)
        = List.filter
            (fun tm => due_in (dt_date now) d tm && (0 <=? d) && (d <=? days))
            (trademarks self)).
Proof.
  intros Hres. apply get_upcoming_returned in Hres as (_ & _ & ->). split.
  - apply sorted_ordered.
  - intros d. rewrite sorted_stable, filter_entries_days.
    apply filter_ext. intros tm. f_equal.
    destruct (d <=? days) eqn:H1.
    + apply Z.leb_le in H1. apply Z.leb_le. lia.
    + apply Z.leb_gt in H1. apply Z.leb_gt. lia.
Qed.

Lemma C7_get_upcoming_sorted_stable_witness :
  exists res,
    (get_upcoming Fixtures.morning_oct16 30 Fixtures.portfolio).1 = Returned res
    /\ map u_tm res
       = [Fixtures.insane_og; Fixtures.greenthumb; Fixtures.greenthumb_logo]
    /\ StronglySorted (key_le days_until) res
    /\ map u_tm (List.filter (fun u => days_until u =? 30) res)
       = [Fixtures.greenthumb; Fixtures.greenthumb_logo].
Proof.
  eexists. split; [reflexivity|]. split; [reflexivity|].
  destruct (C7_get_upcoming_sorted_stable
              Fixtures.morning_oct16 30 Fixtures.portfolio _ eq_refl)
    as [Hsorted Hstable].
  split; [exact Hsorted|]. rewrite (Hstable 30). reflexivity.
Defined.

(** C8, as the code has it. [get_upcoming] takes the date from the system
    clock: its result is a function of the stored trademarks, of the calendar
    day on which it is called and of [days], and does not depend on the time
    of day; the call leaves the tracker and its records as they were. *)
Theorem C8_get_upcoming_same_day now1 now2 days self :
  dt_date now1 = dt_date now2 ->
  get_upcoming now1 days self = get_upcoming now2 days self
  /\ (get_upcoming now1 days self).2 = self.
Proof. intros Hday. unfold get_upcoming. by rewrite Hday. Qed.

Lemma C8_get_upcoming_same_day_witness :
  get_upcoming Fixtures.morning_oct16 30 Fixtures.portfolio
  = get_upcoming Fixtures.evening_oct16 30 Fixtures.portfolio
  /\ (get_upcoming Fixtures.morning_oct16 30 Fixtures.portfolio).2
     = Fixtures.portfolio.
Proof.
  apply (C8_get_upcoming_same_day
           Fixtures.morning_oct16 Fixtures.evening_oct16 30 Fixtures.portfolio).
  reflexivity.
Defined.

(** C8, as stated, fails: with the same trademarks and the same horizon, the
    call of 2025-10-16 and the call of the next day return different
    lists. *)
Lemma C8_result_depends_on_clock :
  (exists res, (get_upcoming Fixtures.morning_oct16 30 Fixtures.portfolio).1
               = Returned res
               /\ map days_until res = [25; 30; 30])
  /\ (exists res, (get_upcoming Fixtures.morning_oct17 30 Fixtures.portfolio).1
                  = Returned res
                  /\ map days_until res = [24; 29; 29])
  /\ (get_upcoming Fixtures.morning_oct16 30 Fixtures.portfolio).1
     <> (get_upcoming Fixtures.morning_oct17 30 Fixtures.portfolio).1.
Proof.
  split; [eexists; split; reflexivity|].
  split; [eexists; split; reflexivity|].
  vm_compute. discriminate.
Qed.

End tracker_facts.

(** ** Adding records *)

Section add_facts.
Import Tracker.

Lemma run_adds_cons c calls self fs :
  run_adds (c :: calls) self fs
  = run_adds calls
      (add_trademark (a_now c) (a_name c) (a_jurisdiction c) (a_filing_date c)
                     (a_renewal_date c) self fs).1
      (add_trademark (a_now c) (a_name c) (a_jurisdiction c) (a_filing_date c)
                     (a_renewal_date c) self fs).2.
Proof. reflexivity. Qed.

(** A run of calls appends one record per call; the [i]-th of them gets the
    length of the collection it was added to, plus one. *)
Lemma run_adds_appends calls self fs :
  exists news,
    trademarks (run_adds calls self fs).1 = trademarks self ++ news
    /\ length news = length calls
    /\ (forall (i : nat) tm,
          news !! i = Some tm ->
          tm_id tm = Z.of_nat (length (trademarks self)) + 1 + Z.of_nat i).
Proof.
  revert self fs. induction calls as [|c calls IH]; intros self fs.
  - exists []. simpl. rewrite app_nil_r. repeat split. intros i tm Hi. done.
  - rewrite run_adds_cons.
    destruct (IH (add_trademark (a_now c) (a_name c) (a_jurisdiction c)
                    (a_filing_date c) (a_renewal_date c) self fs).1
                 (add_trademark (a_now c) (a_name c) (a_jurisdiction c)
                    (a_filing_date c) (a_renewal_date c) self fs).2)
      as (news & Heq & Hlen & Hids).
    exists (new_trademark (a_now c) self (a_name c) (a_jurisdiction c)
                          (a_filing_date c) (a_renewal_date c) :: news).
    split; [rewrite Heq; simpl; by rewrite <- app_assoc|].
    split; [simpl; by rewrite Hlen|].
    simpl in Hids.
    intros [|i] tm Hi; simpl in Hi.
    + injection Hi as <-. simpl. lia.
    + rewrite (Hids i tm Hi), length_app. simpl. lia.
Qed.

(** C5, as the code has it. The new [id] is the length of the collection
    plus one. From a collection none of whose ids exceeds its length (the
    empty one, or one built by [add_trademark] alone) every new id is larger
    than all the ids in the collection it joins, so it is distinct from
    them, and the new ids increase. *)
Theorem C5_add_trademark_fresh_ids calls self fs :
  (forall tm, In tm (trademarks self) ->
              tm_id tm <= Z.of_nat (length (trademarks self))) ->
  exists news,
    trademarks (run_adds calls self fs).1 = trademarks self ++ news
    /\ length news = length calls
    /\ (forall (i : nat) tm,
          news !! i = Some tm ->
          tm_id tm = Z.of_nat (length (trademarks self)) + 1 + Z.of_nat i)
    /\ (forall old tm, In old (trademarks self) -> In tm news ->
                       tm_id old < tm_id tm)
    /\ (forall (i j : nat) tm tm',
          news !! i = Some tm -> news !! j = Some tm' -> (i < j)%nat ->
          tm_id tm < tm_id tm').
Proof.
  intros Hinv.
  destruct (run_adds_appends calls self fs) as (news & Heq & Hlen & Hids).
  exists news. repeat split; auto.
  - intros old tm Hold Htm.
    apply list_elem_of_In, list_elem_of_lookup in Htm as [i Hi].
    rewrite (Hids i tm Hi). specialize (Hinv old Hold). lia.
  - intros i j tm tm' Hi Hj Hij. rewrite (Hids i tm Hi), (Hids j tm' Hj). lia.
Qed.

Lemma C5_add_trademark_fresh_ids_witness :
  exists news,
    trademarks (run_adds [Fixtures.add_call; Fixtures.add_call]
                         (mkTracker [Fixtures.greenthumb]) ∅).1
    = [Fixtures.greenthumb] ++ news
    /\ map tm_id news = [2; 3].
Proof.
  destruct (C5_add_trademark_fresh_ids
              [Fixtures.add_call; Fixtures.add_call]
              (mkTracker [Fixtures.greenthumb]) ∅)
    as (news & Heq & Hlen & Hids & _).
  - intros tm [<-|[]]. simpl. lia.
  - exists news. split; [exact Heq|].
    destruct news as [|tm1 [|tm2 [|tm3 news]]]; try discriminate Hlen.
    simpl. rewrite (Hids 0%nat tm1 eq_refl), (Hids 1%nat tm2 eq_refl).
    reflexivity.
Defined.

(** C5, as stated, fails: from the stored collection with the ids 2 and 3
    the new record gets the id 3, which the collection already holds. *)
Lemma C5_add_trademark_reuses_id :
  map tm_id (trademarks Fixtures.gapped) = [2; 3]
  /\ map tm_id
       (trademarks (run_adds [Fixtures.add_call] Fixtures.gapped ∅).1)
     = [2; 3; 3].
Proof. split; reflexivity. Qed.

(** C10. [add_trademark] appends one record to the collection, with the
    status [active] and the given name, jurisdiction and dates; the records
    stored before stay where and as they were, and the whole collection is
    written to [trademarks.json], other files being left alone. *)
Theorem C10_add_trademark_appends_active now name jurisdiction filing_date
    renewal_date self fs :
  let after :=
    add_trademark now name jurisdiction filing_date renewal_date self fs in
  exists tm,
    trademarks after.1 = trademarks self ++ [tm]
    /\ tm_status tm = "active"
    /\ tm_name tm = name /\ tm_jurisdiction tm = jurisdiction
    /\ tm_filing_date tm = filing_date /\ tm_renewal_date tm = renewal_date
    /\ length (trademarks after.1) = S (length (trademarks self))
    /\ (forall (i : nat) old,
          trademarks self !! i = Some old -> trademarks after.1 !! i = Some old)
    /\ after.2 !! data_file = Some (Parsed (trademarks after.1))
    /\ (forall path, path <> data_file -> after.2 !! path = fs !! path).
Proof.
  simpl.
  exists (new_trademark now self name jurisdiction filing_date renewal_date).
  repeat split.
  - rewrite length_app. simpl. lia.
  - intros i old Hi. by apply lookup_app_l_Some.
  - unfold save_data. by rewrite lookup_insert_eq.
  - intros path Hpath. unfold save_data. by rewrite lookup_insert_ne.
Qed.

Lemma C10_add_trademark_appends_active_witness :
  exists tm,
    trademarks
      (add_trademark Fixtures.morning_oct16 "INSANE OG" "Nevada" "2025-10-16"
                     "2035-10-16" Fixtures.portfolio ∅).1
    = trademarks Fixtures.portfolio ++ [tm]
    /\ tm_status tm = "active"
    /\ trademarks
         (add_trademark Fixtures.morning_oct16 "INSANE OG" "Nevada" "2025-10-16"
                        "2035-10-16" Fixtures.portfolio ∅).1 !! 3%nat
       = Some Fixtures.nevada_pending.
Proof.
  destruct (C10_add_trademark_appends_active
              Fixtures.morning_oct16 "INSANE OG" "Nevada" "2025-10-16"
              "2035-10-16" Fixtures.portfolio ∅)
    as (tm & Heq & Hs & _ & _ & _ & _ & _ & Hold & _).
  exists tm. split; [exact Heq|]. split; [exact Hs|].
  apply Hold. reflexivity.
Defined.

End add_facts.

(** ** Missing files *)

Section load_facts.

(** C4, as the code has it. A file that is missing reads as the empty
    collection in [load_json], for the agreements and for the trademarks of
    the licensing connector alike, and in [load_data] of the tracker, which
    then starts with no record; only [load_trademarks] of the calendar
    module fails, with [FileNotFoundError]. *)
Theorem C4_missing_file_reads_empty
    (tm_files : gmap string (contents Trademark))
    (ag_files : gmap string (contents Agreement)) (file : string) :
  (ag_files !! file = None -> Licensing.load_json ag_files file = Returned [])
  /\ (tm_files !! file = None -> Licensing.load_json tm_files file = Returned [])
  /\ (tm_files !! Tracker.data_file = None ->
      Tracker.load_data tm_files = Returned []
      /\ Tracker.init tm_files = Returned (Tracker.mkTracker []))
  /\ (tm_files !! file = None ->
      Calendar.load_trademarks tm_files file = Raised FileNotFoundError).
Proof.
  repeat split.
  - intros H. unfold Licensing.load_json, open_and_load. by rewrite H.
  - intros H. unfold Licensing.load_json, open_and_load. by rewrite H.
  - unfold Tracker.load_data. rewrite H. by rewrite bool_decide_eq_false_2
      by apply is_Some_None.
  - unfold Tracker.init, Tracker.load_data. rewrite H.
    by rewrite bool_decide_eq_false_2 by apply is_Some_None.
  - intros H. unfold Calendar.load_trademarks, open_and_load. by rewrite H.
Qed.

Lemma C4_missing_file_reads_empty_witness :
  Licensing.load_json (∅ : gmap string (contents Agreement))
                      "licensing_agreements.json" = Returned []
  /\ Licensing.init ∅ ∅ "trademarks.json" "licensing_agreements.json"
     = Returned (Licensing.mkConnector [] [])
  /\ Tracker.load_data ∅ = Returned []
  /\ Calendar.load_trademarks ∅ "trademarks.json" = Raised FileNotFoundError.
Proof.
  destruct (C4_missing_file_reads_empty ∅ ∅ "licensing_agreements.json")
    as (Hag & _ & Hdata & _).
  destruct (C4_missing_file_reads_empty ∅ ∅ "trademarks.json")
    as (_ & _ & _ & Hcal).
  split; [apply Hag; reflexivity|]. split; [reflexivity|].
  split; [apply Hdata; reflexivity|]. apply Hcal; reflexivity.
Defined.

(** C4, as stated, fails: without [trademarks.json] the tracker does not
    fail, it starts with the empty collection. *)
Lemma C4_missing_trademarks_not_fatal :
  (∅ : gmap string (contents Trademark)) !! Tracker.data_file = None
  /\ Tracker.load_data ∅ = Returned []
  /\ Tracker.init ∅ = Returned (Tracker.mkTracker [])
  /\ (forall e, Tracker.init ∅ <> Raised e).
Proof. repeat split. intros e. discriminate. Qed.

End load_facts.

(** ** Dates that are read *)

Section date_facts.

Lemma digit_of_range c d : digit_of c = Some d -> 0 <= d <= 9.
Proof.
  unfold digit_of.
  destruct ((48 <=? N_of_ascii c) && (N_of_ascii c <=? 57))%N eqn:H; [|done].
  intros [= <-]. apply andb_prop in H as [H1 H2].
  apply N.leb_le in H1, H2. lia.
Qed.

Lemma parse_digits_2 c1 c2 n : parse_digits [c1; c2] = Some n -> 0 <= n <= 99.
Proof.
  unfold parse_digits; simpl.
  destruct (digit_of c1) as [d1|] eqn:H1; [|done].
  destruct (digit_of c2) as [d2|] eqn:H2; [|done].
  intros [= <-]. apply digit_of_range in H1, H2. lia.
Qed.

Lemma parse_digits_4 c1 c2 c3 c4 n :
  parse_digits [c1; c2; c3; c4] = Some n -> 0 <= n <= 9999.
Proof.
  unfold parse_digits; simpl.
  destruct (digit_of c1) as [d1|] eqn:H1; [|done].
  destruct (digit_of c2) as [d2|] eqn:H2; [|done].
  destruct (digit_of c3) as [d3|] eqn:H3; [|done].
  destruct (digit_of c4) as [d4|] eqn:H4; [|done].
  intros [= <-]. apply digit_of_range in H1, H2, H3, H4. lia.
Qed.

Lemma _ymd2ord_range year month day :
  1 <= year <= 9999 -> 1 <= month <= 12 ->
  1 <= day <= _days_in_month year month ->
  1 <= _ymd2ord year month day <= MAXORDINAL.
Proof.
  intros Hy Hm Hd.
  unfold _ymd2ord, _days_before_year, _days_before_month, _days_in_month,
    _is_leap, MAXORDINAL in *.
  assert (Hmonth : month = 1 \/ month = 2 \/ month = 3 \/ month = 4
                   \/ month = 5 \/ month = 6 \/ month = 7 \/ month = 8
                   \/ month = 9 \/ month = 10 \/ month = 11 \/ month = 12)
    by lia.
  destruct (year mod 4 =? 0) eqn:H4; destruct (year mod 100 =? 0) eqn:H100;
    destruct (year mod 400 =? 0) eqn:H400;
    rewrite ?Z.eqb_eq, ?Z.eqb_neq in H4, H100, H400;
    decompose [or] Hmonth; subst month; simpl in *;
    Z.div_mod_to_equations; lia.
Qed.

(** A date that is read lies between 0001-01-01 and 9999-12-31. *)
Lemma fromisoformat_range s r :
  fromisoformat s = Returned r -> 1 <= r <= MAXORDINAL.
Proof.
  unfold fromisoformat. intros H.
  repeat case_match; try discriminate.
  injection H as <-.
  repeat match goal with
         | Hc : _ && _ = true |- _ => apply andb_prop in Hc as [? ?]
         | Hc : (_ <=? _) = true |- _ => apply Z.leb_le in Hc
         end.
  match goal with
  | Hy : parse_digits [_; _; _; _] = Some _ |- _ =>
      apply parse_digits_4 in Hy
  end.
  apply _ymd2ord_range; lia.
Qed.

End date_facts.

(** ** The calendar file *)

Section calendar_facts.
Import Calendar.

Lemma append_cons x (a b : string) : String x a +:+ b = String x (a +:+ b).
Proof. reflexivity. Qed.

Lemma append_assoc (a b c : string) : (a +:+ b) +:+ c = a +:+ (b +:+ c).
Proof.
  induction a as [|x a IH]; [done|]. by rewrite !append_cons, IH.
Qed.

Lemma append_nil_r (a : string) : a +:+ "" = a.
Proof. induction a as [|x a IH]; [done|]. by rewrite append_cons, IH. Qed.

Lemma str_concat_app l1 l2 :
  str_concat (l1 ++ l2) = str_concat l1 +:+ str_concat l2.
Proof.
  induction l1 as [|x l1 IH]; [done|].
  cbn [app str_concat foldr]. fold (str_concat (l1 ++ l2)). fold (str_concat l1).
  by rewrite IH, append_assoc.
Qed.

(** A block is its lines. *)
Lemma _create_event_lines now tm event_date event_type :
  _create_event now tm event_date event_type
  = unlines
      (vevent_lines (event_uid tm event_type) (strftime_stamp now)
                    (strftime_Ymd event_date) (event_summary tm event_type)
                    (replace_char "010"%char "\n" (event_description tm))).
Proof.
  unfold _create_event, unlines, vevent_lines, str_concat.
  cbn [map foldr]. by rewrite !append_assoc, append_nil_r.
Qed.

Lemma reminder_step_returned now tm renewal content n res :
  0 <= n <= 999999999 -> 1 <= renewal <= MAXORDINAL ->
  reminder_step now tm renewal content n = Returned res
  <-> n < renewal
      /\ res = content
               +:+ _create_event now tm (renewal - n)
                                 (pretty n +:+ "-day reminder").
Proof.
  intros Hn Hr. unfold reminder_step.
  destruct (date_add_days renewal (- n)) as [alert|e] eqn:Hadd.
  - apply date_add_days_returned in Hadd as [[_ Hh] ->].
    change (renewal + - n) with (renewal - n).
    split; [intros [= <-]; split; [lia|done] | by intros [_ ->]].
  - split; [done|]. intros [Hlt _].
    assert (Hok : date_add_days renewal (- n) = Returned (renewal + - n)).
    { apply date_add_days_returned. unfold horizon_ok. lia. }
    congruence.
Qed.

Lemma reminder_step_ok now tm renewal content n :
  0 <= n <= 999999999 -> 1 <= renewal <= MAXORDINAL -> n < renewal ->
  reminder_step now tm renewal content n
  = Returned (content
              +:+ _create_event now tm (renewal - n)
                                (pretty n +:+ "-day reminder")).
Proof. intros Hn Hr Hlt. by apply reminder_step_returned. Qed.

Lemma reminders_loop_returned now tm renewal content res :
  1 <= renewal <= MAXORDINAL ->
  reminders_loop now tm renewal content = Returned res
  <-> 91 <= renewal
      /\ res = content
               +:+ _create_event now tm (renewal - 90) "90-day reminder"
               +:+ _create_event now tm (renewal - 60) "60-day reminder"
               +:+ _create_event now tm (renewal - 30) "30-day reminder"
               +:+ _create_event now tm (renewal - 7) "7-day reminder".
Proof.
  intros Hr. unfold reminders_loop. cbn [fold_left].
  change (mret content ≫= _) with (reminder_step now tm renewal content 90).
  destruct (Z_lt_le_dec renewal 91) as [Hearly|Hlate].
  - destruct (reminder_step now tm renewal content 90) as [c1|e] eqn:H1.
    + apply reminder_step_returned in H1 as [Hlt _]; [lia|lia|done].
    + split; [done|]. intros [? _]. lia.
  - rewrite reminder_step_ok by (done || lia).
    change (Returned ?c ≫= _) with (reminder_step now tm renewal c 60).
    rewrite reminder_step_ok by (done || lia).
    change (Returned ?c ≫= _) with (reminder_step now tm renewal c 30).
    rewrite reminder_step_ok by (done || lia).
    change (Returned ?c ≫= _) with (reminder_step now tm renewal c 7).
    rewrite reminder_step_ok by (done || lia).
    change (pretty 90 +:+ "-day reminder") with "90-day reminder".
    change (pretty 60 +:+ "-day reminder") with "60-day reminder".
    change (pretty 30 +:+ "-day reminder") with "30-day reminder".
    change (pretty 7 +:+ "-day reminder") with "7-day reminder".
    rewrite !append_assoc.
    split; [intros [= <-]; split; [lia|done] | by intros [_ ->]].
Qed.

Lemma str_concat_events_of now tm renewal :
  str_concat (events_of now tm renewal)
  = _create_event now tm (renewal - 90) "90-day reminder"
    +:+ _create_event now tm (renewal - 60) "60-day reminder"
    +:+ _create_event now tm (renewal - 30) "30-day reminder"
    +:+ _create_event now tm (renewal - 7) "7-day reminder"
    +:+ _create_event now tm renewal "RENEWAL DEADLINE".
Proof.
  unfold events_of, str_concat. cbn [foldr]. by rewrite append_nil_r.
Qed.

(** One turn of the outer loop appends the events of the record, or raises
    when the record is active and not [schedulable]. *)
Lemma ical_step_returned now content tm res :
  ical_step now content tm = Returned res
  <-> schedulable tm
      /\ res = content +:+ str_concat (trademark_events now tm).
Proof.
  unfold ical_step, trademark_events, schedulable.
  destruct (tm_status tm =? "active")%string eqn:Hs; cbn [negb].
  - apply String.eqb_eq in Hs.
    destruct (fromisoformat (tm_renewal_date tm)) as [renewal|e] eqn:Hparse.
    + pose proof (fromisoformat_range _ _ Hparse) as Hrange.
      change (Returned renewal ≫= _)
        with (ical_content ← reminders_loop now tm renewal content;
              mret (ical_content
                    +:+ _create_event now tm renewal "RENEWAL DEADLINE")).
      rewrite str_concat_events_of.
      destruct (reminders_loop now tm renewal content) as [c|e] eqn:Hloop.
      * apply reminders_loop_returned in Hloop as [H91 ->]; [|done].
        cbn. rewrite !append_assoc. split.
        -- intros [= <-]. split; [|done]. intros _. by exists renewal.
        -- by intros [_ ->].
      * split; [done|]. intros [Hsched _].
        destruct (Hsched Hs) as (r & [= <-] & H91).
        assert (Hok : exists c, reminders_loop now tm renewal content = Returned c).
        { eexists. apply reminders_loop_returned; [done|]. by split. }
        destruct Hok as [c Hc]. congruence.
    + split; [done|]. intros [Hsched _]. by destruct (Hsched Hs) as (r & ? & _).
  - apply String.eqb_neq in Hs. cbn. rewrite append_nil_r.
    split; [intros [= <-]; by split | by intros [_ ->]].
Qed.

Lemma ical_fold_raised now tms e :
  fold_left (fun acc tm => ical_content ← acc; ical_step now ical_content tm)
            tms (Raised e) = Raised e.
Proof. induction tms as [|tm tms IH]; simpl; [done|apply IH]. Qed.

Lemma ical_fold_returned now tms content res :
  fold_left (fun acc tm => ical_content ← acc; ical_step now ical_content tm)
            tms (Returned content) = Returned res
  <-> Forall schedulable tms
      /\ res = content +:+ str_concat (calendar_events now tms).
Proof.
  revert content; induction tms as [|tm tms IH]; intros content.
  - cbn. rewrite append_nil_r.
    split; [intros [= <-]; by split | by intros [_ ->]].
  - cbn [fold_left].
    change (Returned content ≫= _) with (ical_step now content tm).
    unfold calendar_events. cbn [flat_map]. fold (calendar_events now tms).
    rewrite str_concat_app, Forall_cons.
    destruct (ical_step now content tm) as [c|e] eqn:Hstep.
    + apply ical_step_returned in Hstep as [Hsched ->].
      rewrite IH, append_assoc. tauto.
    + rewrite ical_fold_raised. split; [done|]. intros [[Hsched _] _].
      assert (Hok : ical_step now content tm
                    = Returned (content
                                +:+ str_concat (trademark_events now tm)))
        by by apply ical_step_returned.
      congruence.
Qed.

(** When [generate_ical] returns, and what it writes. *)
Lemma generate_ical_returned now self content :
  generate_ical now self = Returned content
  <-> Forall schedulable self
      /\ content = ICAL_HEADER +:+ str_concat (calendar_events now self)
                   +:+ "END:VCALENDAR".
Proof.
  unfold generate_ical.
  destruct (fold_left _ self (mret ICAL_HEADER)) as [c|e] eqn:Hfold.
  - apply ical_fold_returned in Hfold as [Hsched ->].
    cbn. rewrite append_assoc.
    split; [intros [= <-]; by split | by intros [_ ->]].
  - split; [done|]. intros [Hsched _].
    assert (Hok : fold_left
                    (fun acc tm => ical_content ← acc;
                                   ical_step now ical_content tm)
                    self (Returned ICAL_HEADER)
                  = Returned (ICAL_HEADER
                              +:+ str_concat (calendar_events now self)))
      by by apply ical_fold_returned.
    unfold mret, outcome_ret in Hfold. congruence.
Qed.

(** The events of a collection that [generate_ical] accepts are five per
    active record. *)
Lemma length_calendar_events now tms :
  Forall schedulable tms ->
  length (calendar_events now tms)
  = (5 * length (List.filter (fun tm => (tm_status tm =? "active")%string) tms))%nat.
Proof.
  unfold calendar_events.
  induction 1 as [|tm tms Hsched _ IH]; [done|].
  cbn [flat_map List.filter]. rewrite length_app, IH.
  unfold trademark_events.
  destruct (tm_status tm =? "active")%string eqn:Hs; [|done].
  apply String.eqb_eq in Hs. destruct (Hsched Hs) as (renewal & -> & _).
  cbn [events_of length]. lia.
Qed.

(** C9. [generate_ical] writes the calendar header, the events of the
    records in their order and [END:VCALENDAR]. A record whose status is not
    [active] has no event. An active record has exactly five: the reminders
    of 90, 60, 30 and 7 days before the renewal date, with the summary
    [TM: name - N-day reminder], and the event of the renewal date, with the
    summary [TM: name - RENEWAL DEADLINE]; each is a [VEVENT] block with
    [UID], [DTSTAMP], [DTSTART], [SUMMARY], [DESCRIPTION] and a [VALARM] of
    action [DISPLAY] and trigger [-P1D]. The call returns whenever the
    renewal dates of the active records can be read and lie 90 days or more
    after 0001-01-01. *)
Theorem C9_generate_ical_events now self :
  (Forall schedulable self ->
   exists content, generate_ical now self = Returned content)
  /\ (forall content,
        generate_ical now self = Returned content ->
        content = ICAL_HEADER +:+ str_concat (calendar_events now self)
                  +:+ "END:VCALENDAR"
        /\ length (calendar_events now self)
           = (5 * length (List.filter
                            (fun tm => (tm_status tm =? "active")%string) self))%nat)
  /\ (forall tm, tm_status tm <> "active" -> trademark_events now tm = [])
  /\ (forall tm renewal,
        tm_status tm = "active" ->
        fromisoformat (tm_renewal_date tm) = Returned renewal ->
        let stamp := strftime_stamp now in
        let description :=
          replace_char "010"%char "\n" (event_description tm) in
        let block days_before label :=
          unlines
            (vevent_lines (event_uid tm label) stamp
                          (strftime_Ymd (renewal - days_before))
                          ("TM: " +:+ tm_name tm +:+ " - " +:+ label)
                          description) in
        trademark_events now tm
        = [ block 90 "90-day reminder";
            block 60 "60-day reminder";
            block 30 "30-day reminder";
            block 7 "7-day reminder";
            block 0 "RENEWAL DEADLINE" ]
        /\ length (trademark_events now tm) = 5%nat).
Proof.
  split; [|split; [|split]].
  - intros Hsched. eexists. by apply generate_ical_returned.
  - intros content Hret.
    apply generate_ical_returned in Hret as [Hsched ->].
    split; [done|]. by apply length_calendar_events.
  - intros tm Hs. unfold trademark_events.
    apply String.eqb_neq in Hs. by rewrite Hs.
  - intros tm renewal Hs Hparse stamp description block.
    unfold trademark_events. apply String.eqb_eq in Hs. rewrite Hs, Hparse.
    split; [|done].
    unfold events_of, block, stamp, description.
    rewrite !_create_event_lines, Z.sub_0_r. reflexivity.
Qed.

Lemma C9_generate_ical_events_witness :
  (exists content,
     generate_ical Fixtures.morning_oct16
                   [Fixtures.greenthumb; Fixtures.nevada_pending]
     = Returned content)
  /\ length (trademark_events Fixtures.morning_oct16 Fixtures.greenthumb)
     = 5%nat
  /\ trademark_events Fixtures.morning_oct16 Fixtures.nevada_pending = [].
Proof.
  destruct (C9_generate_ical_events Fixtures.morning_oct16
              [Fixtures.greenthumb; Fixtures.nevada_pending])
    as (Htotal & _ & Hnone & Hfive).
  split; [|split].
  - apply Htotal. repeat constructor.
    + intros _. exists 739570. split; [reflexivity|lia].
    + intros Hs. discriminate Hs.
  - apply (Hfive Fixtures.greenthumb 739570); reflexivity.
  - apply Hnone. intros Hs. discriminate Hs.
Defined.

End calendar_facts.

(** ** More on the territory report *)

Section licensing_more.
Import Licensing.

Lemma str_in_In x xs : str_in x xs = true <-> In x xs.
Proof.
  unfold str_in. rewrite existsb_exists. split.
  - intros (y & Hy & Heq). apply String.eqb_eq in Heq. by subst.
  - intros Hx. exists x. split; [done|apply String.eqb_refl].
Qed.

Lemma unfiled_true tm :
  unfiled tm = true
  <-> tm_status tm = "pending" \/ tm_status tm = "abandoned".
Proof.
  unfold unfiled. rewrite orb_true_iff, !String.eqb_eq. tauto.
Qed.

Lemma agreement_conflicts_true tm ag :
  agreement_conflicts tm ag = true
  <-> In (lower (tm_jurisdiction tm)) (territories_of ag)
      /\ ag_status ag = "active".
Proof.
  unfold agreement_conflicts.
  by rewrite andb_true_iff, str_in_In, String.eqb_eq.
Qed.

(** Where a record of [check_territory_conflicts] comes from. *)
Lemma conflict_origin self c :
  In c (check_territory_conflicts self) ->
  exists tm ag,
    In tm (trademarks self) /\ In ag (licensing_agreements self)
    /\ (tm_status tm = "pending" \/ tm_status tm = "abandoned")
    /\ ag_status ag = "active"
    /\ In (lower (tm_jurisdiction tm)) (territories_of ag)
    /\ c = make_conflict tm ag.
Proof.
  rewrite check_territory_conflicts_eq, in_flat_map.
  intros (tm & Htm & Hc). apply filter_In in Htm as [Htm Hu].
  rewrite _check_unfiled_territory_eq, in_map_iff in Hc.
  destruct Hc as (ag & <- & Hag). apply filter_In in Hag as [Hag Hconf].
  apply unfiled_true in Hu. apply agreement_conflicts_true in Hconf as [? ?].
  exists tm, ag. auto 10.
Qed.

(** The records of [check_territory_conflicts] are exactly those built from a
    pending or abandoned trademark and an active agreement whose territories
    hold the lowered jurisdiction as it is written. *)
Theorem check_territory_conflicts_member self c :
  In c (check_territory_conflicts self)
  <-> exists tm ag,
        In tm (trademarks self) /\ In ag (licensing_agreements self)
        /\ (tm_status tm = "pending" \/ tm_status tm = "abandoned")
        /\ ag_status ag = "active"
        /\ In (lower (tm_jurisdiction tm)) (territories_of ag)
        /\ c = make_conflict tm ag.
Proof.
  split; [apply conflict_origin|].
  intros (tm & ag & Htm & Hag & Hu & Hact & Hterr & ->).
  rewrite check_territory_conflicts_eq, in_flat_map.
  exists tm. split.
  - apply filter_In. split; [done|]. by apply unfiled_true.
  - rewrite _check_unfiled_territory_eq. apply in_map, filter_In.
    split; [done|]. by apply agreement_conflicts_true.
Qed.

(** Agreements that are not active, or that lack the key [territories],
    give no conflict, whatever the trademarks are. *)
Theorem check_territory_conflicts_none self :
  (forall ag, In ag (licensing_agreements self) ->
              ag_status ag <> "active" \/ ag_territories ag = None) ->
  check_territory_conflicts self = [].
Proof.
  intros Hags.
  destruct (check_territory_conflicts self) as [|c cs] eqn:Hcs; [done|].
  assert (Hc : In c (check_territory_conflicts self))
    by (rewrite Hcs; by left).
  apply conflict_origin in Hc
    as (tm & ag & _ & Hag & _ & Hact & Hterr & _).
  destruct (Hags ag Hag) as [Hne|Hnone]; [done|].
  unfold territories_of in Hterr. rewrite Hnone in Hterr. destruct Hterr.
Qed.

Lemma check_territory_conflicts_none_witness :
  check_territory_conflicts
    (mkConnector [Fixtures.nevada_pending]
                 [mkAgreement 8 "Desert Bloom" None "active";
                  mkAgreement 9 "Canada Partner" (Some ["nevada"]) "pending"])
  = [].
Proof.
  apply check_territory_conflicts_none.
  intros ag [<-|[<-|[]]]; simpl; [by right|by left].
Defined.

Lemma check_territory_conflicts_count_lowercase_witness :
  length (check_territory_conflicts
            (mkConnector
               [Fixtures.nevada_pending; Fixtures.greenthumb]
               [mkAgreement 9 "Canada Partner" (Some ["nevada"; "arizona"])
                            "active";
                mkAgreement 10 "Reno Gardens" (Some ["nevada"]) "active"]))
  = 2%nat.
Proof.
  rewrite check_territory_conflicts_count_lowercase; [reflexivity|].
  repeat constructor.
Defined.

Lemma lower_ascii_idemp c : lower_ascii (lower_ascii c) = lower_ascii c.
Proof. by destruct c as [[] [] [] [] [] [] [] []]. Qed.

Lemma lower_idemp s : lower (lower s) = lower s.
Proof.
  induction s as [|c s IH]; simpl; [done|]. by rewrite lower_ascii_idemp, IH.
Qed.

Lemma elem_of_licensed_territories self x :
  x ∈ licensed_territories self
  <-> exists ag t, In ag (licensing_agreements self)
                   /\ ag_status ag = "active"
                   /\ In t (territories_of ag) /\ x = lower t.
Proof.
  rewrite licensed_territories_eq. unfold Spec.licensed.
  rewrite elem_of_union_list. split.
  - intros (X & HX & Hx). apply list_elem_of_In, in_map_iff in HX
      as (ag & <- & Hag).
    apply filter_In in Hag as [Hag Hact]. apply String.eqb_eq in Hact.
    apply elem_of_list_to_set, list_elem_of_In, in_map_iff in Hx
      as (t & <- & Ht).
    by exists ag, t.
  - intros (ag & t & Hag & Hact & Ht & ->).
    exists (list_to_set (map lower (territories_of ag))). split.
    + apply list_elem_of_In, in_map_iff. exists ag. split; [done|].
      apply filter_In. split; [done|]. by apply String.eqb_eq.
    + apply elem_of_list_to_set, list_elem_of_In, in_map. done.
Qed.

Lemma elem_of_protected_territories self x :
  x ∈ protected_territories self
  <-> exists tm, In tm (trademarks self) /\ tm_status tm = "active"
                 /\ x = lower (tm_jurisdiction tm).
Proof.
  rewrite protected_territories_eq. unfold Spec.protected.
  rewrite elem_of_list_to_set, list_elem_of_In, in_map_iff. split.
  - intros (tm & <- & Htm). apply filter_In in Htm as [Htm Hact].
    apply String.eqb_eq in Hact. by exists tm.
  - intros (tm & Htm & Hact & ->). exists tm. split; [done|].
    apply filter_In. split; [done|]. by apply String.eqb_eq.
Qed.

(** The jurisdiction of every conflict, lowered, is a licensed territory of
    the report; it is listed as unprotected as soon as no active trademark
    has that jurisdiction, up to case. *)
Theorem conflict_is_in_licensed_territory self c :
  In c (check_territory_conflicts self) ->
  lower (c_jurisdiction c) ∈ licensed_territories self
  /\ ((forall tm, In tm (trademarks self) -> tm_status tm = "active" ->
                  lower (tm_jurisdiction tm) <> lower (c_jurisdiction c)) ->
      lower (c_jurisdiction c) ∈ unprotected self).
Proof.
  intros Hc. apply conflict_origin in Hc
    as (tm & ag & Htm & Hag & _ & Hact & Hterr & ->).
  simpl.
  assert (Hlic : lower (tm_jurisdiction tm) ∈ licensed_territories self).
  { apply elem_of_licensed_territories.
    exists ag, (lower (tm_jurisdiction tm)). by rewrite lower_idemp. }
  split; [done|]. intros Hfree. unfold unprotected.
  apply elem_of_difference. split; [done|].
  rewrite elem_of_protected_territories. intros (tm' & Htm' & Hact' & Heq).
  by apply (Hfree tm' Htm' Hact').
Qed.

Lemma conflict_is_in_licensed_territory_witness :
  let self :=
    mkConnector [Fixtures.nevada_pending; Fixtures.greenthumb]
                [mkAgreement 9 "Canada Partner" (Some ["nevada"]) "active"] in
  "nevada" ∈ licensed_territories self /\ "nevada" ∈ unprotected self.
Proof.
  intros self.
  destruct (conflict_is_in_licensed_territory self
              (make_conflict Fixtures.nevada_pending
                 (mkAgreement 9 "Canada Partner" (Some ["nevada"]) "active")))
    as [Hlic Hunp].
  - by left.
  - split; [exact Hlic|]. apply Hunp.
    intros tm [<-|[<-|[]]] Hact; [discriminate Hact|]. simpl. discriminate.
Defined.

End licensing_more.

(** ** More on the renewal windows *)

Section tracker_more.
Import Tracker.

(** Reading a date fails with [ValueError] only. *)
Lemma fromisoformat_raises s e : fromisoformat s = Raised e -> e = ValueError.
Proof.
  unfold fromisoformat. intros H. repeat case_match; congruence.
Qed.

(** How [get_upcoming] ends: with the sorted entries; with [OverflowError]
    when [today + days] is no date, whatever the records are; with
    [ValueError] when the horizon is fine and an active record has a renewal
    date that cannot be read. Records that are not active are not read. *)
Theorem get_upcoming_outcome now days self :
  match (get_upcoming now days self).1 with
  | Returned res =>
      horizon_ok (dt_date now) days
      /\ Forall well_dated (trademarks self)
      /\ res = sorted days_until
                 (entries (dt_date now) (dt_date now + days) (trademarks self))
  | Raised e =>
      (e = OverflowError /\ ~ horizon_ok (dt_date now) days)
      \/ (e = ValueError /\ horizon_ok (dt_date now) days
          /\ exists tm, In tm (trademarks self) /\ tm_status tm = "active"
                        /\ fromisoformat (tm_renewal_date tm) = Raised ValueError)
  end.
Proof.
  destruct (get_upcoming now days self).1 as [res|e] eqn:Hres.
  - by apply get_upcoming_returned.
  - unfold get_upcoming in Hres. simpl in Hres.
    destruct (date_add_days (dt_date now) days) as [threshold|e'] eqn:Hadd.
    + apply date_add_days_returned in Hadd as [Hh ->]. right.
      change (Returned (dt_date now + days) ≫= _)
        with (upcoming ← upcoming_loop (dt_date now) (dt_date now + days)
                                       (trademarks self);
              mret (sorted days_until upcoming)) in Hres.
      unfold upcoming_loop in Hres.
      assert (Hgen : forall tms acc,
        (fold_left (fun acc tm =>
                      upcoming ← acc;
                      upcoming_step (dt_date now) (dt_date now + days) upcoming tm)
                   tms (Returned acc)
         ≫= fun upcoming => mret (sorted days_until upcoming)) = Raised e ->
        e = ValueError
        /\ exists tm, In tm tms /\ tm_status tm = "active"
                      /\ fromisoformat (tm_renewal_date tm) = Raised ValueError).
      { induction tms as [|tm tms IH]; intros acc Hfold; [discriminate|].
        cbn [fold_left] in Hfold.
        change (Returned acc ≫= _)
          with (upcoming_step (dt_date now) (dt_date now + days) acc tm)
          in Hfold.
        destruct (upcoming_step (dt_date now) (dt_date now + days) acc tm)
          as [acc'|e''] eqn:Hstep.
        - destruct (IH acc' Hfold) as (-> & tm' & Hin & Hact & Hparse).
          split; [done|]. exists tm'. split; [by right|done].
        - rewrite fold_left_raised in Hfold. injection Hfold as ->.
          unfold upcoming_step in Hstep.
          destruct (tm_status tm =? "active")%string eqn:Hs; [|discriminate].
          apply String.eqb_eq in Hs. cbn [negb] in Hstep.
          destruct (fromisoformat (tm_renewal_date tm)) as [r|e'] eqn:Hparse.
          + cbn in Hstep. by destruct (_ && _).
          + cbn in Hstep. injection Hstep as ->.
            pose proof (fromisoformat_raises _ _ Hparse) as ->.
            split; [done|]. exists tm. split; [by left|done]. }
      destruct (Hgen _ _ Hres) as (-> & Htm). auto.
    + left. cbn in Hres. injection Hres as <-.
      unfold date_add_days in Hadd. destruct (_ && _) eqn:Hc; [discriminate|].
      injection Hadd as <-. split; [done|].
      intros [H1 [H2 H3]]. apply Z.leb_le in H1, H2, H3.
      by rewrite H1, H2, H3 in Hc.
Qed.

(** Records that are not active play no part in [get_upcoming], not even
    through a date that cannot be read. *)
Theorem get_upcoming_ignores_inactive now days self :
  (get_upcoming now days (mkTracker (active_trademarks self))).1
  = (get_upcoming now days self).1.
Proof.
  unfold get_upcoming, active_trademarks. simpl.
  destruct (date_add_days (dt_date now) days) as [threshold|e]; [|done].
  cbn. f_equal. unfold upcoming_loop.
  generalize (mret [] : outcome (list Upcoming)).
  induction (trademarks self) as [|tm tms IH]; intros acc; [done|].
  cbn [List.filter fold_left].
  destruct (tm_status tm =? "active")%string eqn:Hs.
  - cbn [fold_left]. apply IH.
  - rewrite IH. f_equal. destruct acc as [upcoming|e]; [|done].
    cbn. unfold upcoming_step. by rewrite Hs.
Qed.

Lemma length_entry_of today threshold tm :
  (length (entry_of today threshold tm)
   <= if (tm_status tm =? "active")%string then 1 else 0)%nat.
Proof.
  unfold entry_of. destruct (tm_status tm =? "active")%string; [|done].
  destruct (fromisoformat _); [|simpl; lia].
  destruct (_ && _); simpl; lia.
Qed.

Lemma length_entries_active today threshold tms :
  (length (entries today threshold tms)
   <= length (List.filter (fun tm => (tm_status tm =? "active")%string) tms))%nat.
Proof.
  unfold entries. induction tms as [|tm tms IH]; [done|].
  cbn [flat_map List.filter]. rewrite length_app.
  pose proof (length_entry_of today threshold tm).
  destruct (tm_status tm =? "active")%string; simpl in *; lia.
Qed.

(** The list of [get_upcoming] is never longer than the collection has
    active records, and it is empty for a negative horizon. *)
Theorem get_upcoming_bounds now days self res :
  (get_upcoming now days self).1 = Returned res ->
  (length res <= length (active_trademarks self))%nat
  /\ (days < 0 -> res = []).
Proof.
  intros Hres. apply get_upcoming_returned in Hres as (_ & _ & ->). split.
  - rewrite length_sorted. apply length_entries_active.
  - intros Hneg.
    destruct (sorted days_until _) as [|u us] eqn:Hs; [done|].
    assert (Hu : In u (sorted days_until
                         (entries (dt_date now) (dt_date now + days)
                                  (trademarks self))))
      by (rewrite Hs; by left).
    apply in_sorted, in_entries in Hu as (_ & _ & r & _ & _ & Hw). lia.
Qed.

Lemma get_upcoming_bounds_witness :
  exists res,
    (get_upcoming Fixtures.morning_oct16 (-1) Fixtures.portfolio).1
    = Returned res
    /\ res = [].
Proof.
  eexists. split; [reflexivity|].
  refine (proj2 (get_upcoming_bounds Fixtures.morning_oct16 (-1)
                   Fixtures.portfolio _ eq_refl) _).
  lia.
Defined.

End tracker_more.

(** ** Sorting and thresholds *)

Section sorted_more.
Context {A : Type} (key : A -> Z).

Lemma filter_insert_by_out (p : A -> bool) x l :
  p x = false ->
  List.filter p (insert_by key x l) = List.filter p l.
Proof.
  intros Hx. induction l as [|z l IH]; simpl; [by rewrite Hx|].
  destruct (key x <=? key z); simpl; [by rewrite Hx|]. by rewrite IH.
Qed.

Lemma insert_by_below x l :
  Forall (fun y => key x <= key y) l -> insert_by key x l = x :: l.
Proof.
  intros Hl. destruct l as [|z l]; [done|]. simpl.
  apply Forall_cons in Hl as [Hz _].
  by rewrite (proj2 (Z.leb_le _ _) Hz).
Qed.

Lemma filter_insert_by_in (p : A -> bool) x l :
  StronglySorted (key_le key) l -> p x = true ->
  List.filter p (insert_by key x l) = insert_by key x (List.filter p l).
Proof.
  intros Hl Hx. induction Hl as [|z l Hl IH Hz]; simpl; [by rewrite Hx|].
  destruct (key x <=? key z) eqn:Hxz; simpl; rewrite ?Hx.
  - apply Z.leb_le in Hxz. destruct (p z); simpl.
    + by rewrite (proj2 (Z.leb_le _ _) Hxz).
    + symmetry. apply insert_by_below.
      rewrite Forall_forall in Hz. rewrite Forall_forall. intros y Hy.
      apply list_elem_of_In, filter_In in Hy as [Hy _].
      specialize (Hz y (proj2 (list_elem_of_In _ _) Hy)).
      unfold key_le in Hz. lia.
  - destruct (p z); simpl; rewrite ?Hxz, IH; done.
Qed.

(** Filtering commutes with the stable sort. *)
Lemma filter_sorted (p : A -> bool) l :
  List.filter p (sorted key l) = sorted key (List.filter p l).
Proof.
  induction l as [|x l IH]; simpl; [done|].
  destruct (p x) eqn:Hx; simpl.
  - rewrite filter_insert_by_in, IH; [done|apply sorted_ordered|done].
  - by rewrite filter_insert_by_out, IH.
Qed.

(** A list in ascending order of keys is its part up to a threshold
    followed by its part above it. *)
Lemma ordered_split c l :
  StronglySorted (key_le key) l ->
  l = List.filter (fun y => key y <=? c) l
      ++ List.filter (fun y => negb (key y <=? c)) l.
Proof.
  induction 1 as [|z l Hl IH Hz]; simpl; [done|].
  destruct (key z <=? c) eqn:Hzc; simpl.
  - by rewrite <- IH.
  - apply Z.leb_gt in Hzc.
    assert (Hall : forall y, In y l -> (key y <=? c) = false).
    { intros y Hy. rewrite Forall_forall in Hz.
      specialize (Hz y (proj2 (list_elem_of_In _ _) Hy)).
      unfold key_le in Hz. apply Z.leb_gt. lia. }
    assert (Hnone : List.filter (fun y => key y <=? c) l = []).
    { clear -Hall. induction l as [|y l IH]; simpl; [done|].
      rewrite (Hall y) by (by left). apply IH. intros; apply Hall. by right. }
    assert (Hsame : List.filter (fun y => negb (key y <=? c)) l = l).
    { clear -Hall. induction l as [|y l IH]; simpl; [done|].
      rewrite (Hall y) by (by left). simpl. f_equal.
      apply IH. intros; apply Hall. by right. }
    by rewrite Hnone, Hsame.
Qed.

End sorted_more.

Section tracker_prefix.
Import Tracker.

Lemma entries_filter today t1 t2 tms :
  t1 <= t2 ->
  entries today t1 tms
  = List.filter (fun u => days_until u <=? t1 - today) (entries today t2 tms).
Proof.
  intros Ht. unfold entries. induction tms as [|tm tms IH]; simpl; [done|].
  rewrite List.filter_app, IH. f_equal. unfold entry_of.
  destruct (tm_status tm =? "active")%string; [|done].
  destruct (fromisoformat (tm_renewal_date tm)) as [renewal|e]; [|done].
  destruct (today <=? renewal); simpl; [|done].
  destruct (renewal <=? t1) eqn:H1, (renewal <=? t2) eqn:H2; simpl;
    rewrite ?Z.leb_le, ?Z.leb_gt in H1, H2; try lia.
  - by rewrite (proj2 (Z.leb_le (renewal - today) (t1 - today))) by lia.
  - by rewrite (proj2 (Z.leb_gt (renewal - today) (t1 - today))) by lia.
  - done.
Qed.

(** The list for a horizon is the beginning of the list for any longer
    horizon: the longer horizon only adds entries at the end, all of them
    further away than the shorter horizon. *)
Theorem get_upcoming_prefix now self h1 h2 res1 res2 :
  h1 <= h2 ->
  (get_upcoming now h1 self).1 = Returned res1 ->
  (get_upcoming now h2 self).1 = Returned res2 ->
  exists rest,
    res2 = res1 ++ rest /\ Forall (fun u => h1 < days_until u) rest.
Proof.
  intros Hh H1 H2.
  apply get_upcoming_returned in H1 as (_ & _ & ->).
  apply get_upcoming_returned in H2 as (_ & _ & ->).
  set (all := entries (dt_date now) (dt_date now + h2) (trademarks self)).
  exists (List.filter (fun u => negb (days_until u <=? h1))
                      (sorted days_until all)).
  split.
  - rewrite (entries_filter _ (dt_date now + h1) (dt_date now + h2)) by lia.
    fold all. rewrite <- filter_sorted.
    replace (dt_date now + h1 - dt_date now) with h1 by lia.
    apply ordered_split, sorted_ordered.
  - rewrite Forall_forall. intros u Hu.
    apply list_elem_of_In, filter_In in Hu as [_ Hu].
    apply negb_true_iff, Z.leb_gt in Hu. lia.
Qed.

Lemma get_upcoming_prefix_witness :
  exists res30 res90 rest,
    (get_upcoming Fixtures.morning_oct16 30 Fixtures.portfolio).1
    = Returned res30
    /\ (get_upcoming Fixtures.morning_oct16 90 Fixtures.portfolio).1
       = Returned res90
    /\ res90 = res30 ++ rest
    /\ map days_until rest = [65].
Proof.
  destruct (get_upcoming_prefix Fixtures.morning_oct16 Fixtures.portfolio
              30 90 _ _ ltac:(lia) eq_refl eq_refl) as (rest & Heq & Hfar).
  eexists _, _, rest. split; [reflexivity|]. split; [reflexivity|].
  split; [exact Heq|].
  vm_compute in Heq. destruct rest as [|u [|u' rest]]; try discriminate Heq.
  by injection Heq as <-.
Defined.

End tracker_prefix.

(** ** The stored collection *)

Section tracker_store.
Import Tracker.

Lemma load_data_save_data self fs :
  load_data (save_data self fs) = Returned (trademarks self).
Proof.
  unfold load_data, save_data, open_and_load.
  rewrite lookup_insert_eq.
  by rewrite bool_decide_eq_true_2 by (by eexists).
Qed.

Lemma run_adds_saved c calls self fs :
  (run_adds (c :: calls) self fs).2 !! data_file
  = Some (Parsed (trademarks (run_adds (c :: calls) self fs).1)).
Proof.
  revert c self fs. induction calls as [|c' calls IH]; intros c self fs.
  - unfold run_adds. simpl. unfold save_data. by rewrite lookup_insert_eq.
  - rewrite run_adds_cons. apply IH.
Qed.

(** What [add_trademark] writes is what a new tracker reads: after one call,
    or after any run of calls, the tracker built from the files holds the
    same collection, the added records included. *)
Theorem add_trademark_persists :
  (forall now name jurisdiction filing_date renewal_date self fs,
     let after :=
       add_trademark now name jurisdiction filing_date renewal_date self fs in
     init after.2 = Returned after.1)
  /\ (forall c calls self fs,
        init (run_adds (c :: calls) self fs).2
        = Returned (run_adds (c :: calls) self fs).1).
Proof.
  split.
  - intros. unfold after, add_trademark, init. simpl.
    by rewrite load_data_save_data.
  - intros c calls self fs. pose proof (run_adds_saved c calls self fs) as Hs.
    destruct (run_adds (c :: calls) self fs) as [[tms] fs']. simpl in *.
    unfold init, load_data, open_and_load. rewrite Hs.
    by rewrite bool_decide_eq_true_2 by (by eexists).
Qed.

(** One call keeps the ids pairwise distinct and between 1 and the number of
    records. *)
Lemma ids_fit_add now name jurisdiction filing_date renewal_date self fs :
  NoDup (map tm_id (trademarks self)) ->
  Forall (fun tm => 1 <= tm_id tm <= Z.of_nat (length (trademarks self)))
         (trademarks self) ->
  let after :=
    (add_trademark now name jurisdiction filing_date renewal_date self fs).1 in
  NoDup (map tm_id (trademarks after))
  /\ Forall (fun tm => 1 <= tm_id tm <= Z.of_nat (length (trademarks after)))
            (trademarks after).
Proof.
  intros Hnd Hfit. simpl. split.
  - rewrite map_app. apply NoDup_app. split; [done|]. split.
    + intros x Hx Hk. simpl in Hk. apply list_elem_of_singleton in Hk as ->.
      apply list_elem_of_In, in_map_iff in Hx as (tm & Hid & Htm).
      rewrite Forall_forall in Hfit.
      specialize (Hfit tm (proj2 (list_elem_of_In _ _) Htm)). lia.
    + simpl. apply NoDup_singleton.
  - rewrite length_app. simpl. apply Forall_app. split.
    + eapply Forall_impl; [exact Hfit|]. simpl. intros tm ?. lia.
    + repeat constructor; simpl; lia.
Qed.

(** Collections whose ids are pairwise distinct and lie between 1 and the
    number of records stay so under any run of calls of [add_trademark]. *)
Theorem run_adds_keeps_ids_fit calls self fs :
  NoDup (map tm_id (trademarks self)) ->
  Forall (fun tm => 1 <= tm_id tm <= Z.of_nat (length (trademarks self)))
         (trademarks self) ->
  let after := (run_adds calls self fs).1 in
  NoDup (map tm_id (trademarks after))
  /\ Forall (fun tm => 1 <= tm_id tm <= Z.of_nat (length (trademarks after)))
            (trademarks after).
Proof.
  revert self fs. induction calls as [|c calls IH]; intros self fs Hnd Hfit.
  - by split.
  - rewrite run_adds_cons.
    destruct (ids_fit_add (a_now c) (a_name c) (a_jurisdiction c)
                (a_filing_date c) (a_renewal_date c) self fs Hnd Hfit)
      as [Hnd' Hfit'].
    by apply IH.
Qed.

Lemma run_adds_keeps_ids_fit_witness :
  NoDup (map tm_id
           (trademarks
              (run_adds [Fixtures.add_call; Fixtures.add_call; Fixtures.add_call]
                        (mkTracker []) ∅).1))
  /\ map tm_id
       (trademarks
          (run_adds [Fixtures.add_call; Fixtures.add_call; Fixtures.add_call]
                    (mkTracker []) ∅).1)
     = [1; 2; 3].
Proof.
  split; [|reflexivity].
  apply (run_adds_keeps_ids_fit
           [Fixtures.add_call; Fixtures.add_call; Fixtures.add_call]
           (mkTracker []) ∅).
  - simpl. apply NoDup_nil. done.
  - constructor.
Defined.

(** A record added with a renewal date that lies [d] days after the day of
    a later call of [get_upcoming], [0 <= d <= days], is in the list of that
    call with [days_until = d], and with the status it was created with. *)
Theorem added_trademark_is_upcoming now name jurisdiction filing_date
    renewal_date self fs now' days res d :
  let after :=
    (add_trademark now name jurisdiction filing_date renewal_date self fs).1 in
  fromisoformat renewal_date = Returned (dt_date now' + d) ->
  0 <= d <= days ->
  (get_upcoming now' days after).1 = Returned res ->
  exists u, In u res /\ days_until u = d /\ tm_name (u_tm u) = name
            /\ tm_id (u_tm u) = Z.of_nat (length (trademarks self)) + 1.
Proof.
  intros after Hparse Hd Hres.
  apply get_upcoming_returned in Hres as (_ & _ & ->).
  exists (mkUpcoming
            (new_trademark now self name jurisdiction filing_date renewal_date)
            d).
  split; [|done].
  apply in_sorted, in_entries. simpl. split.
  - apply in_app_iff. right. by left.
  - split; [done|]. exists (dt_date now' + d). split; [done|]. lia.
Qed.

Lemma added_trademark_is_upcoming_witness :
  exists res u,
    (get_upcoming Fixtures.morning_oct17 30
       (add_trademark Fixtures.morning_oct16 "INSANE OG" "Nevada" "2015-11-01"
                      "2025-11-01" Fixtures.gapped ∅).1).1 = Returned res
    /\ In u res /\ days_until u = 15 /\ tm_name (u_tm u) = "INSANE OG".
Proof.
  eexists.
  destruct (added_trademark_is_upcoming Fixtures.morning_oct16 "INSANE OG"
              "Nevada" "2015-11-01" "2025-11-01" Fixtures.gapped ∅
              Fixtures.morning_oct17 30 _ 15 eq_refl ltac:(lia) eq_refl)
    as (u & Hin & Hd & Hname & _).
  exists u. split; [reflexivity|]. by split.
Defined.

End tracker_store.

(** ** The printed report *)

Section report_facts.
Import Tracker.

Lemma report_lists_returned clock self u30 u60 u90 :
  report_lists clock self = Returned (u30, u60, u90)
  <-> (get_upcoming (at_30 clock) 30 self).1 = Returned u30
      /\ (get_upcoming (at_60 clock) 60 self).1 = Returned u60
      /\ (get_upcoming (at_90 clock) 90 self).1 = Returned u90.
Proof.
  unfold report_lists.
  generalize ((get_upcoming (at_30 clock) 30 self).1)
             ((get_upcoming (at_60 clock) 60 self).1)
             ((get_upcoming (at_90 clock) 90 self).1).
  intros [l30|e30] [l60|e60] [l90|e90]; cbn; split;
    try (intros H; discriminate H);
    try (intros (H1 & H2 & H3); discriminate).
  - intros Heq. injection Heq as -> -> ->. done.
  - intros (H1 & H2 & H3). injection H1 as ->. injection H2 as ->.
    injection H3 as ->. done.
Qed.

(** A report whose first call of [get_upcoming] reads one day and whose
    second call reads the next: a record due on the first day is counted
    within 30 days and no longer within 60. *)
Lemma report_counts_across_midnight :
  exists clock self u30 u60 u90,
    report_lists clock self = Returned (u30, u60, u90)
    /\ (length u60 < length u30)%nat.
Proof.
  exists (mkReportClock Fixtures.morning_oct16 Fixtures.morning_oct16
                        Fixtures.morning_oct17 Fixtures.morning_oct17),
         (mkTracker [mkTrademark 1 "DR. GREENTHUMB" "Arizona" "2015-10-16"
                                 "2025-10-16" "active" None None]).
  eexists _, _, _. split; [reflexivity|]. simpl. lia.
Qed.

(** The three counts printed by [generate_report] never exceed the count
    [Total Active] printed above them. They grow from 30 to 60 to 90 days
    when the calls of [get_upcoming] read the same day from the clock; a
    report that runs over midnight can print a larger count for 30 days than
    for 60. *)
Theorem generate_report_counts :
  (forall clock self u30 u60 u90,
     report_lists clock self = Returned (u30, u60, u90) ->
     (length u30 <= length (active_trademarks self))%nat
     /\ (length u60 <= length (active_trademarks self))%nat
     /\ (length u90 <= length (active_trademarks self))%nat
     /\ (dt_date (at_30 clock) = dt_date (at_60 clock) ->
         (length u30 <= length u60)%nat)
     /\ (dt_date (at_60 clock) = dt_date (at_90 clock) ->
         (length u60 <= length u90)%nat))
  /\ (exists clock self u30 u60 u90,
        report_lists clock self = Returned (u30, u60, u90)
        /\ (length u60 < length u30)%nat).
Proof.
  split; [|exact report_counts_across_midnight].
  intros clock self u30 u60 u90 Hlists.
  apply report_lists_returned in Hlists as (H30 & H60 & H90).
  apply get_upcoming_returned in H30 as (_ & _ & ->).
  apply get_upcoming_returned in H60 as (_ & _ & ->).
  apply get_upcoming_returned in H90 as (_ & _ & ->).
  rewrite !length_sorted. unfold active_trademarks.
  repeat split; try apply length_entries_active.
  - intros ->. apply length_entries_mono. lia.
  - intros ->. apply length_entries_mono. lia.
Qed.

Lemma generate_report_counts_witness :
  exists u30 u60 u90,
    report_lists
      (mkReportClock Fixtures.morning_oct16 Fixtures.morning_oct16
                     Fixtures.morning_oct16 Fixtures.evening_oct16)
      Fixtures.portfolio
    = Returned (u30, u60, u90)
    /\ (length u30 <= length u60 <= length u90)%nat
    /\ (length u90 <= 4)%nat.
Proof.
  destruct generate_report_counts as [Hcounts _].
  eexists _, _, _. split; [reflexivity|].
  destruct (Hcounts
              (mkReportClock Fixtures.morning_oct16 Fixtures.morning_oct16
                             Fixtures.morning_oct16 Fixtures.evening_oct16)
              Fixtures.portfolio _ _ _ eq_refl)
    as (_ & _ & H90 & H3060 & H6090).
  split; [split; [by apply H3060|by apply H6090]|exact H90].
Defined.

(** [generate_report] prints its heading and the line [Total Active] before
    anything can fail; it fails exactly when one of its three calls of
    [get_upcoming] does, with the exception of the first that fails, and
    then prints nothing more. *)
Theorem generate_report_outcome clock self :
  (exists rest, (generate_report clock self).1 = report_head clock self ++ rest)
  /\ (forall e,
        (generate_report clock self).2 = Raised e
        <-> report_lists clock self = Raised e)
  /\ (forall e,
        (generate_report clock self).2 = Raised e ->
        (generate_report clock self).1 = report_head clock self
        /\ ((get_upcoming (at_30 clock) 30 self).1 = Raised e
            \/ (get_upcoming (at_60 clock) 60 self).1 = Raised e
            \/ (get_upcoming (at_90 clock) 90 self).1 = Raised e)).
Proof.
  assert (Hwhich : forall e,
    report_lists clock self = Raised e ->
    (get_upcoming (at_30 clock) 30 self).1 = Raised e
    \/ (get_upcoming (at_60 clock) 60 self).1 = Raised e
    \/ (get_upcoming (at_90 clock) 90 self).1 = Raised e).
  { intros e. unfold report_lists.
    generalize ((get_upcoming (at_30 clock) 30 self).1)
               ((get_upcoming (at_60 clock) 60 self).1)
               ((get_upcoming (at_90 clock) 90 self).1).
    intros [l30|e30] [l60|e60] [l90|e90]; cbn; intros Hlists;
      try discriminate Hlists; injection Hlists as ->; auto. }
  unfold generate_report.
  destruct (report_lists clock self) as [lists|e] eqn:Hlists; cbn [fst snd].
  - split; [by eexists|]. split; [intros e; split; discriminate|].
    intros e H. discriminate H.
  - split; [exists []; by rewrite app_nil_r|].
    split; [intros e'; split; congruence|].
    intros e' [= <-]. split; [done|]. by apply Hwhich.
Qed.

End report_facts.

(** ** The figures of the territory report *)

Section report_figures.
Import Licensing.

(** In the dictionary returned by [generate_territory_report] the list of
    unprotected territories has no repetition; with the licensed territories
    that are protected it makes up the count [licensed]; and the cost printed
    by the main block is 3900 for each of them, at most 3900 times the count
    [licensed]. *)
Theorem territory_report_figures self :
  let report := generate_territory_report self in
  NoDup (r_unprotected report)
  /\ (length (r_unprotected report)
      + size (licensed_territories self ∩ protected_territories self)
      = r_licensed report)%nat
  /\ (forall t, In t (r_unprotected report)
                <-> t ∈ licensed_territories self
                    /\ t ∉ protected_territories self)
  /\ 0 <= estimated_cost report <= Z.of_nat (r_licensed report) * 3900
  /\ r_conflicts report = check_territory_conflicts self.
Proof.
  simpl.
  assert (Hlen : (length (elements (unprotected self))
                  + size (licensed_territories self ∩ protected_territories self)
                  = size (licensed_territories self))%nat).
  { change (length (elements (unprotected self))) with (size (unprotected self)).
    unfold unprotected.
    rewrite <- size_union by set_solver. f_equal.
    apply set_eq. intros x.
    rewrite elem_of_union, elem_of_difference, elem_of_intersection.
    destruct (decide (x ∈ protected_territories self)); tauto. }
  split; [apply NoDup_elements|]. split; [exact Hlen|]. split.
  - intros t. rewrite <- list_elem_of_In, elem_of_elements.
    unfold unprotected. apply elem_of_difference.
  - split; [|done]. unfold estimated_cost. simpl. lia.
Qed.

(** One more trademark can only take territories off the unprotected set,
    and takes none off unless it is active; one more agreement can only add
    territories to it. *)
Theorem unprotected_after_one_more tms ags tm ag :
  unprotected (mkConnector (tms ++ [tm]) ags) ⊆ unprotected (mkConnector tms ags)
  /\ (tm_status tm <> "active" ->
      unprotected (mkConnector (tms ++ [tm]) ags)
      = unprotected (mkConnector tms ags))
  /\ unprotected (mkConnector tms ags) ⊆ unprotected (mkConnector tms (ags ++ [ag])).
Proof.
  assert (Hprot : forall x,
    x ∈ protected_territories (mkConnector (tms ++ [tm]) ags)
    <-> x ∈ protected_territories (mkConnector tms ags)
        \/ (tm_status tm = "active" /\ x = lower (tm_jurisdiction tm))).
  { intros x. rewrite !elem_of_protected_territories. simpl. split.
    - intros (tm' & Hin & Hact & ->). apply in_app_iff in Hin as [Hin|[<-|[]]].
      + left. by exists tm'.
      + by right.
    - intros [(tm' & Hin & Hact & ->)|[Hact ->]].
      + exists tm'. split; [apply in_app_iff; by left|done].
      + exists tm. split; [apply in_app_iff; right; by left|done]. }
  assert (Hlic : forall tms' x,
    x ∈ licensed_territories (mkConnector tms' ags)
    <-> x ∈ licensed_territories (mkConnector tms ags)).
  { intros tms' x. by rewrite !elem_of_licensed_territories. }
  assert (Hlic' : forall x,
    x ∈ licensed_territories (mkConnector tms ags) ->
    x ∈ licensed_territories (mkConnector tms (ags ++ [ag]))).
  { intros x. rewrite !elem_of_licensed_territories. simpl.
    intros (ag' & t & Hin & Hrest). exists ag', t.
    split; [apply in_app_iff; by left|done]. }
  assert (Hprot' : forall ags' x,
    x ∈ protected_territories (mkConnector tms ags')
    <-> x ∈ protected_territories (mkConnector tms ags)).
  { intros ags' x. by rewrite !elem_of_protected_territories. }
  unfold unprotected. split; [|split].
  - intros x. rewrite !elem_of_difference, Hprot, (Hlic (tms ++ [tm])). tauto.
  - intros Hs. apply set_eq. intros x.
    rewrite !elem_of_difference, Hprot, (Hlic (tms ++ [tm])). tauto.
  - intros x. rewrite !elem_of_difference, (Hprot' (ags ++ [ag])).
    intros [Hl Hp].
    split; [by apply Hlic'|done].
Qed.

Lemma unprotected_after_one_more_witness :
  unprotected
    (mkConnector ([Fixtures.greenthumb] ++ [Fixtures.nevada_pending])
                 [mkAgreement 9 "Canada Partner" (Some ["nevada"; "arizona"])
                              "active"])
  = unprotected
      (mkConnector [Fixtures.greenthumb]
                   [mkAgreement 9 "Canada Partner" (Some ["nevada"; "arizona"])
                                "active"]).
Proof.
  apply (unprotected_after_one_more [Fixtures.greenthumb]).
  - exact (mkAgreement 0 "" None "").
  - simpl. discriminate.
Defined.

(** The constructors of the tracker and of the connector never fail on a
    missing file: they fail only with [JSONDecodeError], on a file that
    [json.load] rejects, and otherwise hold what the files hold. *)
Theorem constructors_fail_on_malformed_files_only
    (tm_files : gmap string (contents Trademark))
    (ag_files : gmap string (contents Agreement))
    (trademarks_file licensing_file : string) :
  (forall e, Tracker.init tm_files = Raised e ->
             e = JSONDecodeError /\ tm_files !! Tracker.data_file = Some Garbage)
  /\ (forall e,
        init tm_files ag_files trademarks_file licensing_file = Raised e ->
        e = JSONDecodeError
        /\ (tm_files !! trademarks_file = Some Garbage
            \/ ag_files !! licensing_file = Some Garbage))
  /\ (forall self,
        init tm_files ag_files trademarks_file licensing_file = Returned self ->
        trademarks self
        = match tm_files !! trademarks_file with
          | Some (Parsed v) => v
          | _ => []
          end
        /\ licensing_agreements self
           = match ag_files !! licensing_file with
             | Some (Parsed v) => v
             | _ => []
             end).
Proof.
  split; [|split].
  - intros e. unfold Tracker.init, Tracker.load_data, open_and_load.
    destruct (tm_files !! Tracker.data_file) as [[v|]|] eqn:Hf.
    + rewrite bool_decide_eq_true_2 by (by eexists). discriminate.
    + rewrite bool_decide_eq_true_2 by (by eexists). cbn. by intros [= <-].
    + rewrite bool_decide_eq_false_2 by apply is_Some_None. discriminate.
  - intros e. unfold init, load_json, open_and_load.
    destruct (tm_files !! trademarks_file) as [[v|]|];
      destruct (ag_files !! licensing_file) as [[w|]|]; cbn;
      intros H; try discriminate H; injection H as <-; auto.
  - intros self. unfold init, load_json, open_and_load.
    destruct (tm_files !! trademarks_file) as [[v|]|];
      destruct (ag_files !! licensing_file) as [[w|]|]; cbn;
      intros H; try discriminate H; by injection H as <-.
Qed.

Lemma constructors_fail_on_malformed_files_only_witness :
  init {[ "trademarks.json" := Parsed [Fixtures.greenthumb] ]} ∅
       "trademarks.json" "licensing_agreements.json"
  = Returned (mkConnector [Fixtures.greenthumb] [])
  /\ init ∅ {[ "licensing_agreements.json" := Garbage ]}
          "trademarks.json" "licensing_agreements.json"
     = Raised JSONDecodeError.
Proof.
  split; [reflexivity|].
  destruct (init ∅ {[ "licensing_agreements.json" := Garbage ]}
                 "trademarks.json" "licensing_agreements.json")
    as [self|e] eqn:Hinit; [discriminate Hinit|].
  destruct (constructors_fail_on_malformed_files_only
              ∅ {[ "licensing_agreements.json" := Garbage ]}
              "trademarks.json" "licensing_agreements.json")
    as (_ & Hfail & _).
  by destruct (Hfail e Hinit) as [-> _].
Defined.

End report_figures.

(** ** More on the calendar file *)

Section calendar_more.
Import Calendar.

Lemma date_add_days_raises d days e :
  date_add_days d days = Raised e -> e = OverflowError.
Proof. unfold date_add_days. destruct (_ && _); congruence. Qed.

(** The reminders fail only for a renewal date in the first 90 days of the
    calendar, and then with [OverflowError]. *)
Lemma reminders_loop_raised now tm renewal content e :
  1 <= renewal <= MAXORDINAL ->
  reminders_loop now tm renewal content = Raised e ->
  e = OverflowError /\ renewal < 91.
Proof.
  intros Hr Hloop.
  destruct (Z_lt_le_dec renewal 91) as [Hearly|Hlate].
  - split; [|done]. unfold reminders_loop in Hloop. cbn [fold_left] in Hloop.
    change (mret content ≫= _)
      with (reminder_step now tm renewal content 90) in Hloop.
    destruct (reminder_step now tm renewal content 90) as [c|e'] eqn:Hstep.
    + apply reminder_step_returned in Hstep as [Hlt _]; [lia|lia|done].
    + cbn in Hloop. injection Hloop as <-. unfold reminder_step in Hstep.
      destruct (date_add_days renewal (- (90))) as [a|e''] eqn:Hadd;
        [discriminate Hstep|].
      cbn in Hstep. injection Hstep as <-.
      by apply date_add_days_raises in Hadd.
  - exfalso.
    assert (Hok : exists c, reminders_loop now tm renewal content = Returned c).
    { eexists. apply reminders_loop_returned; [done|]. by split. }
    destruct Hok as [c Hc]. congruence.
Qed.

Lemma ical_step_raised now content tm e :
  ical_step now content tm = Raised e ->
  tm_status tm = "active"
  /\ ((e = ValueError
       /\ fromisoformat (tm_renewal_date tm) = Raised ValueError)
      \/ (e = OverflowError
          /\ exists renewal,
               fromisoformat (tm_renewal_date tm) = Returned renewal
               /\ renewal < 91)).
Proof.
  unfold ical_step.
  destruct (tm_status tm =? "active")%string eqn:Hs; [|discriminate].
  apply String.eqb_eq in Hs. cbn [negb]. split; [done|].
  destruct (fromisoformat (tm_renewal_date tm)) as [renewal|e'] eqn:Hparse.
  - right.
    change (Returned renewal ≫= _)
      with (ical_content ← reminders_loop now tm renewal content;
            mret (ical_content
                  +:+ _create_event now tm renewal "RENEWAL DEADLINE")) in H.
    destruct (reminders_loop now tm renewal content) as [c|e'] eqn:Hloop;
      [discriminate H|].
    cbn in H. injection H as <-.
    apply reminders_loop_raised in Hloop as [-> Hlt];
      [|by apply fromisoformat_range in Hparse].
    split; [done|]. by exists renewal.
  - left. cbn in H. injection H as <-.
    by pose proof (fromisoformat_raises _ _ Hparse) as ->.
Qed.

(** How [generate_ical] ends: with the text of header, events and
    [END:VCALENDAR]; with [ValueError] for an active record whose renewal
    date cannot be read; with [OverflowError] for an active record whose
    renewal date lies before 0001-04-01, for which the reminder of 90 days
    before is no date. Records that are not active are not read. *)
Theorem generate_ical_outcome now self :
  match generate_ical now self with
  | Returned content =>
      Forall schedulable self
      /\ content = ICAL_HEADER +:+ str_concat (calendar_events now self)
                   +:+ "END:VCALENDAR"
  | Raised e =>
      exists tm,
        In tm self /\ tm_status tm = "active"
        /\ ((e = ValueError
             /\ fromisoformat (tm_renewal_date tm) = Raised ValueError)
            \/ (e = OverflowError
                /\ exists renewal,
                     fromisoformat (tm_renewal_date tm) = Returned renewal
                     /\ renewal < 91))
  end.
Proof.
  destruct (generate_ical now self) as [content|e] eqn:Hgen.
  - by apply generate_ical_returned.
  - unfold generate_ical in Hgen.
    destruct (fold_left _ self (mret ICAL_HEADER)) as [c|e'] eqn:Hfold;
      [discriminate Hgen|].
    cbn in Hgen. injection Hgen as <-.
    revert Hfold. generalize ICAL_HEADER.
    induction self as [|tm tms IH]; intros content Hfold; [discriminate|].
    cbn [fold_left] in Hfold.
    change (mret content ≫= _) with (ical_step now content tm) in Hfold.
    destruct (ical_step now content tm) as [c|e''] eqn:Hstep.
    + destruct (IH c Hfold) as (tm' & Hin & Hrest).
      exists tm'. split; [by right|done].
    + rewrite ical_fold_raised in Hfold. injection Hfold as <-.
      apply ical_step_raised in Hstep as [Hact Hwhy].
      exists tm. split; [by left|done].
Qed.

(** A collection without active record, the empty one included, gives the
    calendar that holds no event, whatever the dates of its records. *)
Theorem generate_ical_without_active now self :
  Forall (fun tm => tm_status tm <> "active") self ->
  generate_ical now self = Returned (ICAL_HEADER +:+ "END:VCALENDAR").
Proof.
  intros Hnone. apply generate_ical_returned. split.
  - eapply Forall_impl; [exact Hnone|]. intros tm Hs Hact. done.
  - assert (Hev : calendar_events now self = []).
    { unfold calendar_events. induction Hnone as [|tm tms Hs _ IH]; [done|].
      cbn [flat_map]. rewrite IH. unfold trademark_events.
      apply String.eqb_neq in Hs. by rewrite Hs. }
    by rewrite Hev.
Qed.

Lemma generate_ical_without_active_witness :
  generate_ical Fixtures.morning_oct16
    [Fixtures.nevada_pending;
     mkTrademark 6 "OLD MARK" "Ohio" "" "no date" "abandoned" None None]
  = Returned (ICAL_HEADER +:+ "END:VCALENDAR").
Proof.
  apply generate_ical_without_active.
  repeat constructor; simpl; discriminate.
Defined.

(** The characters of a text. *)
Lemma chars_append a b :
  list_ascii_of_string (a +:+ b)
  = list_ascii_of_string a ++ list_ascii_of_string b.
Proof.
  induction a as [|x a IH]; [done|].
  rewrite append_cons. simpl. by rewrite IH.
Qed.

(** [replace] leaves no occurrence of the character it replaces, when the
    replacement holds none. *)
Lemma replace_char_free c by_ s :
  ~ In c (list_ascii_of_string by_) ->
  ~ In c (list_ascii_of_string (replace_char c by_ s)).
Proof.
  intros Hby. induction s as [|x s IH]; simpl; [tauto|].
  destruct (Ascii.eqb x c) eqn:Hx.
  - rewrite chars_append, in_app_iff. tauto.
  - apply Ascii.eqb_neq in Hx. simpl. intros [->|Hin]; [done|tauto].
Qed.

(** Whatever the name, jurisdiction, renewal date and registration number of
    the record hold, the [DESCRIPTION] of every event is free of line feeds:
    it stays on its line of the block. *)
Theorem event_description_on_one_line now tm event_date event_type :
  exists description,
    _create_event now tm event_date event_type
    = unlines (vevent_lines (event_uid tm event_type) (strftime_stamp now)
                            (strftime_Ymd event_date)
                            (event_summary tm event_type) description)
    /\ ~ In "010"%char (list_ascii_of_string description).
Proof.
  exists (replace_char "010"%char "\n" (event_description tm)).
  split; [apply _create_event_lines|].
  apply replace_char_free. simpl. intros [H|[H|[]]]; discriminate H.
Qed.

End calendar_more.

(** ** The quick-add links and the setup guide *)

Section links_facts.
Import Calendar.

Lemma link_step_returned links tm res :
  link_step links tm = Returned res
  <-> Tracker.well_dated tm /\ res = links ++ links_of [tm].
Proof.
  unfold link_step, links_of, Tracker.well_dated. cbn [flat_map].
  rewrite app_nil_r.
  destruct (tm_status tm =? "active")%string eqn:Hs; cbn [negb].
  - apply String.eqb_eq in Hs.
    destruct (fromisoformat (tm_renewal_date tm)) as [renewal|e]; cbn.
    + split; [intros [= <-]; eauto | by intros [_ ->]].
    + split; [discriminate|]. intros [Hw _]. by destruct (Hw Hs).
  - apply String.eqb_neq in Hs. cbn. rewrite app_nil_r.
    split; [intros [= <-]; split; [done|done] | by intros [_ ->]].
Qed.

Lemma link_fold_raised tms e :
  fold_left (fun acc tm => links ← acc; link_step links tm) tms (Raised e)
  = Raised e.
Proof. induction tms as [|tm tms IH]; simpl; [done|apply IH]. Qed.

Lemma links_of_cons tm tms : links_of (tm :: tms) = links_of [tm] ++ links_of tms.
Proof. unfold links_of. cbn [flat_map]. by rewrite app_nil_r. Qed.

Lemma link_fold_returned tms links res :
  fold_left (fun acc tm => links ← acc; link_step links tm) tms (Returned links)
  = Returned res
  <-> Forall Tracker.well_dated tms /\ res = links ++ links_of tms.
Proof.
  revert links; induction tms as [|tm tms IH]; intros links.
  - cbn. rewrite app_nil_r.
    split; [intros [= <-]; by split | by intros [_ ->]].
  - cbn [fold_left].
    change (Returned links ≫= _) with (link_step links tm).
    rewrite links_of_cons, Forall_cons.
    destruct (link_step links tm) as [links'|e] eqn:Hstep.
    + apply link_step_returned in Hstep as [Hw ->].
      rewrite IH, <- app_assoc. tauto.
    + rewrite link_fold_raised. split; [discriminate|]. intros [[Hw _] _].
      assert (Hok : link_step links tm = Returned (links ++ links_of [tm]))
        by by apply link_step_returned.
      congruence.
Qed.

Lemma generate_google_calendar_links_returned self links :
  generate_google_calendar_links self = Returned links
  <-> Forall Tracker.well_dated self /\ links = links_of self.
Proof. apply (link_fold_returned self []). Qed.

Lemma link_step_raised links tm e :
  link_step links tm = Raised e ->
  e = ValueError /\ tm_status tm = "active"
  /\ fromisoformat (tm_renewal_date tm) = Raised ValueError.
Proof.
  unfold link_step.
  destruct (tm_status tm =? "active")%string eqn:Hs; [|discriminate].
  apply String.eqb_eq in Hs. cbn [negb].
  destruct (fromisoformat (tm_renewal_date tm)) as [renewal|e'] eqn:Hparse;
    [discriminate|].
  cbn. intros [= <-]. by pose proof (fromisoformat_raises _ _ Hparse) as ->.
Qed.

Lemma no_space_in_link tm renewal_date :
  ~ In " "%char (list_ascii_of_string (l_link (make_link tm renewal_date))).
Proof.
  unfold make_link. cbn [l_link]. rewrite !chars_append, !in_app_iff.
  intros [H|[H|H]].
  - simpl in H. repeat (destruct H as [H|H]; [discriminate H|]). done.
  - simpl in H. destruct H as [H|[]]. discriminate H.
  - revert H. apply replace_char_free. simpl. intros [H|[]]. discriminate H.
Qed.

(** How [generate_google_calendar_links] ends: with one link for each active
    record, in the order of the collection, carrying the name and the
    renewal date of the record as they are written and an address without
    any space; or with [ValueError], for an active record whose renewal date
    cannot be read. It returns for every collection whose active records
    have readable dates. *)
Theorem generate_google_calendar_links_outcome self :
  (Forall Tracker.well_dated self ->
   exists links, generate_google_calendar_links self = Returned links)
  /\ match generate_google_calendar_links self with
     | Returned links =>
         map l_trademark links
         = map tm_name
               (List.filter (fun tm => (tm_status tm =? "active")%string) self)
         /\ map l_date links
            = map tm_renewal_date
                  (List.filter (fun tm => (tm_status tm =? "active")%string)
                               self)
         /\ Forall (fun link =>
                      ~ In " "%char (list_ascii_of_string (l_link link)))
                   links
     | Raised e =>
         e = ValueError
         /\ exists tm, In tm self /\ tm_status tm = "active"
                       /\ fromisoformat (tm_renewal_date tm) = Raised ValueError
     end.
Proof.
  split.
  - intros Hw. eexists. by apply generate_google_calendar_links_returned.
  - destruct (generate_google_calendar_links self) as [links|e] eqn:Hgen.
    + apply generate_google_calendar_links_returned in Hgen as [Hw ->].
      induction Hw as [|tm tms Hw _ IH].
      * repeat split. constructor.
      * destruct IH as (IH1 & IH2 & IH3). rewrite links_of_cons.
        unfold links_of at 1 3 5. cbn [flat_map List.filter].
        destruct (tm_status tm =? "active")%string eqn:Hs; [|done].
        apply String.eqb_eq in Hs. destruct (Hw Hs) as [renewal ->].
        cbn. rewrite IH1, IH2. repeat split.
        constructor; [apply no_space_in_link|done].
    + unfold generate_google_calendar_links in Hgen. revert Hgen.
      generalize (@nil Link).
      induction self as [|tm tms IH]; intros links Hfold; [discriminate|].
      cbn [fold_left] in Hfold.
      change (mret links ≫= _) with (link_step links tm) in Hfold.
      destruct (link_step links tm) as [links'|e'] eqn:Hstep.
      * destruct (IH links' Hfold) as (-> & tm' & Hin & Hrest).
        split; [done|]. exists tm'. split; [by right|done].
      * rewrite link_fold_raised in Hfold. injection Hfold as <-.
        apply link_step_raised in Hstep as (-> & Hact & Hparse).
        split; [done|]. exists tm. split; [by left|done].
Qed.

Lemma generate_google_calendar_links_outcome_witness :
  exists links,
    generate_google_calendar_links (Tracker.trademarks Fixtures.portfolio)
    = Returned links
    /\ length links = 4%nat.
Proof.
  destruct (generate_google_calendar_links_outcome
              (Tracker.trademarks Fixtures.portfolio)) as [Htotal _].
  destruct Htotal as [links Hlinks].
  - repeat constructor; intros Hs; try discriminate Hs; by eexists.
  - exists links. split; [exact Hlinks|].
    vm_compute in Hlinks. by injection Hlinks as <-.
Defined.

(** [export_reminders_markdown] ends as [generate_google_calendar_links]
    does, and writes heading, one section for each link and footer. *)
Lemma export_reminders_markdown_returned self content :
  export_reminders_markdown self = Returned content
  <-> Forall Tracker.well_dated self
      /\ content = SETUP_HEADER
                   +:+ str_concat (map link_section (links_of self))
                   +:+ SETUP_FOOTER.
Proof.
  unfold export_reminders_markdown.
  destruct (generate_google_calendar_links self) as [links|e] eqn:Hgen.
  - apply generate_google_calendar_links_returned in Hgen as [Hw ->].
    cbn.
    assert (Hfold : forall ls acc,
      fold_left (fun content link_data => content +:+ link_section link_data)
                ls acc
      = acc +:+ str_concat (map link_section ls)).
    { induction ls as [|l ls IH]; intros acc; cbn [fold_left map].
      - cbn. by rewrite append_nil_r.
      - rewrite IH, append_assoc. done. }
    rewrite Hfold, append_assoc.
    split; [intros [= <-]; by split | by intros [_ ->]].
  - split; [discriminate|]. intros [Hw _].
    assert (Hok : generate_google_calendar_links self = Returned (links_of self))
      by by apply generate_google_calendar_links_returned.
    congruence.
Qed.

Lemma schedulable_well_dated tm : schedulable tm -> Tracker.well_dated tm.
Proof. intros Hs Hact. destruct (Hs Hact) as (r & Hr & _). by exists r. Qed.

(** The main block writes both files or none. It fails when the collection
    cannot be read or when [generate_ical] fails, before anything is
    written; once the calendar is written the setup guide is written too,
    since the guide needs less of the dates than the calendar. *)
Theorem main_writes_both_or_none now fs texts :
  match (main now fs texts).2 with
  | Returned _ =>
      exists self ical_content content,
        load_trademarks fs "trademarks.json" = Returned self
        /\ generate_ical now self = Returned ical_content
        /\ export_reminders_markdown self = Returned content
        /\ (main now fs texts).1
           = <["CALENDAR_SETUP.md" := content]>
               (<["trademark_deadlines.ics" := ical_content]> texts)
  | Raised e =>
      (main now fs texts).1 = texts
      /\ (load_trademarks fs "trademarks.json" = Raised e
          \/ exists self,
               load_trademarks fs "trademarks.json" = Returned self
               /\ generate_ical now self = Raised e)
  end.
Proof.
  unfold main.
  destruct (load_trademarks fs "trademarks.json") as [self|e] eqn:Hload;
    [|cbn; auto].
  destruct (generate_ical now self) as [ical_content|e] eqn:Hical;
    [|cbn; split; [done|right; by exists self]].
  pose proof Hical as Hsched.
  apply generate_ical_returned in Hsched as [Hsched _].
  assert (Hmd : export_reminders_markdown self
                = Returned (SETUP_HEADER
                            +:+ str_concat (map link_section (links_of self))
                            +:+ SETUP_FOOTER)).
  { apply export_reminders_markdown_returned. split; [|done].
    eapply Forall_impl; [exact Hsched|]. apply schedulable_well_dated. }
  rewrite Hmd. cbn. eauto 10.
Qed.

End links_facts.

(** ** The identifiers of the events *)

Section uid_facts.
Import Calendar.

Local Abbreviation digits := (list_ascii_of_string "0123456789").

Lemma pretty_N_char_digit x : In (pretty_N_char x) digits.
Proof. unfold pretty_N_char. repeat case_match; simpl; tauto. Qed.

(** The digits written in front of the accumulator. *)
Lemma pretty_N_go_shape x s :
  exists p, pretty_N_go x s = p +:+ s
            /\ Forall (fun c => In c digits) (list_ascii_of_string p)
            /\ ((0 < x)%N -> p <> "").
Proof.
  revert s. induction (N.lt_wf_0 x) as [x _ IH]; intros s.
  assert (x = 0 \/ 0 < x)%N as [->|Hx] by lia.
  - exists "". rewrite pretty_N_go_0. repeat split; [constructor|lia].
  - rewrite pretty_N_go_step by done.
    destruct (IH (x `div` 10)%N (N.div_lt x 10 Hx eq_refl)
                 (String (pretty_N_char (x `mod` 10)) s))
      as (p & -> & Hp & _).
    exists (p +:+ String (pretty_N_char (x `mod` 10)) "").
    split; [by rewrite append_assoc|]. split.
    + rewrite chars_append. apply Forall_app. split; [done|].
      cbn [list_ascii_of_string]. constructor; [|constructor].
      apply pretty_N_char_digit.
    + intros _. destruct p; discriminate.
Qed.

Lemma pretty_Z_shape (z : Z) :
  exists sign ds,
    pretty z = sign +:+ ds /\ (sign = "" \/ sign = "-") /\ ds <> ""
    /\ Forall (fun c => In c digits) (list_ascii_of_string ds).
Proof.
  assert (Hpos : forall p : positive,
    pretty p <> ""
    /\ Forall (fun c => In c digits) (list_ascii_of_string (pretty p))).
  { intros p. unfold pretty, pretty_positive, pretty, pretty_N.
    rewrite decide_False by done.
    destruct (pretty_N_go_shape (N.pos p) "") as (ds & -> & Hds & Hne).
    rewrite append_nil_r. split; [|done]. apply Hne. lia. }
  destruct z as [|p|p]; unfold pretty, pretty_Z.
  - exists "", "0". split; [done|]. split; [by left|].
    split; [discriminate|]. cbn. constructor; [tauto|constructor].
  - destruct (Hpos p) as [Hne Hds]. exists "", (pretty p).
    split; [done|]. split; [by left|]. by split.
  - destruct (Hpos p) as [Hne Hds]. exists "-", (pretty p).
    split; [done|]. split; [by right|]. by split.
Qed.

Lemma append_nil_l (s : string) : "" +:+ s = s.
Proof. reflexivity. Qed.

Lemma digit_not_dash c : In c digits -> c <> "-"%char.
Proof.
  intros Hc ->. simpl in Hc.
  repeat (destruct Hc as [Hc|Hc]; [discriminate Hc|]). done.
Qed.

(** Two texts of digits followed by a dash and anything: equal wholes have
    equal parts. *)
Lemma digits_dash_split p1 p2 t1 t2 :
  Forall (fun c => In c digits) (list_ascii_of_string p1) ->
  Forall (fun c => In c digits) (list_ascii_of_string p2) ->
  p1 +:+ "-" +:+ t1 = p2 +:+ "-" +:+ t2 -> p1 = p2 /\ t1 = t2.
Proof.
  revert p2. induction p1 as [|c p1 IH]; intros [|c' p2] H1 H2 Heq;
    rewrite ?append_cons, ?append_nil_l in Heq.
  - by injection Heq as ->.
  - exfalso. injection Heq as <- _. cbn in H2.
    apply Forall_cons in H2 as [Hc _]. by apply (digit_not_dash _ Hc).
  - exfalso. injection Heq as -> _. cbn in H1.
    apply Forall_cons in H1 as [Hc _]. by apply (digit_not_dash _ Hc).
  - injection Heq as -> Heq.
    cbn in H1, H2. apply Forall_cons in H1 as [_ H1].
    apply Forall_cons in H2 as [_ H2].
    rewrite <- (append_nil_l t1), <- (append_nil_l t2), <- !append_cons in Heq.
    destruct (IH p2 H1 H2 Heq) as [-> ->]. done.
Qed.

Lemma append_inv_r (a b c : string) : a +:+ c = b +:+ c -> a = b.
Proof.
  intros Heq.
  assert (Hl : list_ascii_of_string a = list_ascii_of_string b).
  { apply (app_inv_tail (list_ascii_of_string c)).
    by rewrite <- !chars_append, Heq. }
  by rewrite <- (string_of_list_ascii_of_string a),
             <- (string_of_list_ascii_of_string b), Hl.
Qed.

(** The identifier of an event gives back the id of its record and its
    label with dashes for spaces. *)
Lemma event_uid_inj tm1 tm2 ty1 ty2 :
  event_uid tm1 ty1 = event_uid tm2 ty2 ->
  tm_id tm1 = tm_id tm2
  /\ replace_char " "%char "-" ty1 = replace_char " "%char "-" ty2.
Proof.
  unfold event_uid. intros Heq.
  destruct (pretty_Z_shape (tm_id tm1)) as (s1 & d1 & Hp1 & Hs1 & Hn1 & Hd1).
  destruct (pretty_Z_shape (tm_id tm2)) as (s2 & d2 & Hp2 & Hs2 & Hn2 & Hd2).
  assert (Hparts : pretty (tm_id tm1) = pretty (tm_id tm2)
                   /\ replace_char " "%char "-" ty1 +:+ "@drgreenthumbtm.com"
                      = replace_char " "%char "-" ty2 +:+ "@drgreenthumbtm.com").
  { rewrite Hp1, Hp2 in *. rewrite !append_assoc in Heq.
    destruct Hs1 as [->| ->], Hs2 as [->| ->];
      rewrite ?append_cons, ?append_nil_l in *.
    - rewrite <- (append_nil_l (replace_char _ _ ty1 +:+ _)),
              <- (append_nil_l (replace_char _ _ ty2 +:+ _)),
              <- !append_cons in Heq.
      by destruct (digits_dash_split _ _ _ _ Hd1 Hd2 Heq) as [-> ->].
    - exfalso. destruct d1 as [|c d1]; [done|].
      rewrite !append_cons in Heq. injection Heq as -> _. cbn in Hd1.
      apply Forall_cons in Hd1 as [Hc _]. by apply (digit_not_dash _ Hc).
    - exfalso. destruct d2 as [|c d2]; [done|].
      rewrite !append_cons in Heq. injection Heq as <- _. cbn in Hd2.
      apply Forall_cons in Hd2 as [Hc _]. by apply (digit_not_dash _ Hc).
    - injection Heq as Heq.
      rewrite <- (append_nil_l (replace_char _ _ ty1 +:+ _)),
              <- (append_nil_l (replace_char _ _ ty2 +:+ _)),
              <- !append_cons in Heq.
      by destruct (digits_dash_split _ _ _ _ Hd1 Hd2 Heq) as [-> ->]. }
  destruct Hparts as [Hid Hty]. split.
  - by apply (inj pretty).
  - by apply append_inv_r in Hty.
Qed.

(** Events of records with different ids never have the same [UID], and the
    five events of one record have five different [UID]s; two records with
    the same id give the same [UID]s. *)
Theorem event_uids_distinct :
  (forall tm1 tm2 ty1 ty2,
     tm_id tm1 <> tm_id tm2 -> event_uid tm1 ty1 <> event_uid tm2 ty2)
  /\ (forall tm,
        NoDup (map (event_uid tm)
                   ["90-day reminder"; "60-day reminder"; "30-day reminder";
                    "7-day reminder"; "RENEWAL DEADLINE"]))
  /\ (forall tm1 tm2 ty,
        tm_id tm1 = tm_id tm2 -> event_uid tm1 ty = event_uid tm2 ty).
Proof.
  split; [|split].
  - intros tm1 tm2 ty1 ty2 Hne Heq. by apply event_uid_inj in Heq as [? _].
  - intros tm. apply NoDup_fmap_2_strong; [|].
    + intros ty1 ty2 H1 H2 Heq. apply event_uid_inj in Heq as [_ Heq].
      apply list_elem_of_In in H1, H2. simpl in H1, H2.
      repeat (destruct H1 as [<-|H1]); try done;
        repeat (destruct H2 as [<-|H2]); try done; discriminate Heq.
    + by apply (bool_decide_unpack _).
  - intros tm1 tm2 ty Hid. unfold event_uid. by rewrite Hid.
Qed.

Lemma event_uids_distinct_witness :
  event_uid Fixtures.greenthumb "RENEWAL DEADLINE"
  <> event_uid Fixtures.insane_og "RENEWAL DEADLINE".
Proof.
  destruct event_uids_distinct as [Hdiff _]. apply Hdiff. discriminate.
Defined.

End uid_facts.

(** ** Dates, there and back *)

Section date_round_trip.

Lemma div_mod_eq k q r n :
  0 <= r < k -> n = k * q + r -> n / k = q /\ n mod k = r.
Proof.
  intros Hr ->. split.
  - symmetry. apply (Z.div_unique _ _ q r); [left; lia|lia].
  - symmetry. apply (Z.mod_unique _ _ q r); [left; lia|lia].
Qed.

(** The year of [_ord2ymd], for the day [o] of the year [y], counted from 0:
    the last day of a leap year goes through the early [return]. *)
Lemma _ord2ymd_year y o :
  1 <= y ->
  0 <= o < 365 + (if _is_leap y then 1 else 0) ->
  let n := _days_before_year y + o in
  let n400 := n / 146097 in let r := n mod 146097 in
  let n100 := r / 36524 in let r := r mod 36524 in
  let n4 := r / 1461 in let r := r mod 1461 in
  let n1 := r / 365 in let r := r mod 365 in
  (o = 365 /\ ((n1 =? 4) || (n100 =? 4) = true)
          /\ n400 * 400 + 1 + n100 * 100 + n4 * 4 + n1 - 1 = y)
  \/ (o < 365 /\ (n1 =? 4) || (n100 =? 4) = false
      /\ n400 * 400 + 1 + n100 * 100 + n4 * 4 + n1 = y /\ r = o
      /\ ((n1 =? 3) && (negb (n4 =? 24) || (n100 =? 3))) = _is_leap y).
Proof.
  intros Hy Ho. unfold _days_before_year, _is_leap in *.
  cbv zeta.
  set (Y := y - 1) in *.
  assert (HY : 0 <= Y) by (unfold Y; lia).
  pose (a := Y / 400). pose (r1 := Y mod 400).
  pose (b := r1 / 100). pose (r2 := r1 mod 100).
  pose (c := r2 / 4). pose (r3 := r2 mod 4).
  assert (HYd : Y = 400 * a + 100 * b + 4 * c + r3 /\ 0 <= a /\ 0 <= b <= 3 /\ 0 <= c <= 24 /\ 0 <= r3 <= 3).
  { unfold a, b, c, r3, r2, r1. Z.div_mod_to_equations. lia. }
  destruct HYd as (HYeq & Ha & Hb & Hc & Hr3).
  assert (H4 : Y / 4 = 100 * a + 25 * b + c) by (Z.div_mod_to_equations; lia).
  assert (H100 : Y / 100 = 4 * a + b) by (Z.div_mod_to_equations; lia).
  assert (H400 : Y / 400 = a) by reflexivity.
  rewrite H4, H100, H400.
  assert (Hm4 : (y mod 4 =? 0) = (r3 =? 3)).
  { unfold Y in *. destruct (r3 =? 3) eqn:E2;
    rewrite ?Z.eqb_eq, ?Z.eqb_neq in *; Z.div_mod_to_equations; lia. }
  assert (Hm100 : (y mod 100 =? 0) = ((c =? 24) && (r3 =? 3))).
  { unfold Y in *. destruct (c =? 24) eqn:E1, (r3 =? 3) eqn:E2; simpl;
    rewrite ?Z.eqb_eq, ?Z.eqb_neq in *; Z.div_mod_to_equations; lia. }
  assert (Hm400 : (y mod 400 =? 0) = ((b =? 3) && (c =? 24) && (r3 =? 3))).
  { unfold Y in *. destruct (b =? 3) eqn:E0, (c =? 24) eqn:E1, (r3 =? 3) eqn:E2; simpl;
    rewrite ?Z.eqb_eq, ?Z.eqb_neq in *; Z.div_mod_to_equations; lia. }
  rewrite Hm4, Hm100, Hm400 in Ho |- *.
  clear H4 H100 H400 Hm4 Hm100 Hm400.
  clearbody a b c r3. clear r1 r2.
  replace (Y * 365 + (100 * a + 25 * b + c) - (4 * a + b) + a + o)
    with (146097 * a + (36524 * b + (1461 * c + (365 * r3 + o)))) by lia.
  assert (Hy' : y = 400 * a + 100 * b + 4 * c + r3 + 1) by (unfold Y in *; lia).
  clear HYeq HY. clearbody Y. subst y.
  assert (Ho' : o < 365 \/ (o = 365 /\ r3 = 3 /\ (c <> 24 \/ b = 3))).
  { destruct (b =? 3) eqn:E0, (c =? 24) eqn:E1, (r3 =? 3) eqn:E2;
      rewrite ?Z.eqb_eq, ?Z.eqb_neq in *; simpl in Ho; lia. }
  destruct Ho' as [Ho'|(-> & -> & Hcb)].
  - right.
    destruct (div_mod_eq 146097 a (36524 * b + (1461 * c + (365 * r3 + o))) _ ltac:(lia) eq_refl) as [-> ->].
    assert (Hb2 : 0 <= 1461 * c + (365 * r3 + o) < 36524).
    { destruct (b =? 3) eqn:E0, (c =? 24) eqn:E1, (r3 =? 3) eqn:E2;
        rewrite ?Z.eqb_eq, ?Z.eqb_neq in *; simpl in Ho; lia. }
    destruct (div_mod_eq 36524 b (1461 * c + (365 * r3 + o)) _ Hb2 eq_refl) as [-> ->].
    destruct (div_mod_eq 1461 c (365 * r3 + o) _ ltac:(lia) eq_refl) as [-> ->].
    destruct (div_mod_eq 365 r3 o _ ltac:(lia) eq_refl) as [-> ->].
    split; [done|].
    split. { apply orb_false_iff. split; apply Z.eqb_neq; lia. }
    split; [lia|]. split; [done|].
    destruct (b =? 3), (c =? 24), (r3 =? 3); reflexivity.
  - left. split; [done|].
    destruct (Z.eq_dec b 3) as [->|Hb3].
    + destruct (Z.eq_dec c 24) as [->|Hc24].
      * destruct (div_mod_eq 146097 a (36524 * 3 + (1461 * 24 + (365 * 3 + 365))) _ ltac:(lia) eq_refl) as [-> ->].
        change ((36524 * 3 + (1461 * 24 + (365 * 3 + 365))) / 36524) with 4.
        change ((36524 * 3 + (1461 * 24 + (365 * 3 + 365))) mod 36524) with 0.
        split; [reflexivity|Z.div_mod_to_equations; lia].
      * destruct (div_mod_eq 146097 a (36524 * 3 + (1461 * c + (365 * 3 + 365))) _ ltac:(lia) eq_refl) as [-> ->].
        destruct (div_mod_eq 36524 3 (1461 * c + (365 * 3 + 365)) _ ltac:(lia) eq_refl) as [-> ->].
        destruct (div_mod_eq 1461 c (365 * 3 + 365) _ ltac:(lia) eq_refl) as [-> ->].
        split; [reflexivity|Z.div_mod_to_equations; lia].
    + assert (c <> 24) by lia.
      destruct (div_mod_eq 146097 a (36524 * b + (1461 * c + (365 * 3 + 365))) _ ltac:(lia) eq_refl) as [-> ->].
      destruct (div_mod_eq 36524 b (1461 * c + (365 * 3 + 365)) _ ltac:(lia) eq_refl) as [-> ->].
      destruct (div_mod_eq 1461 c (365 * 3 + 365) _ ltac:(lia) eq_refl) as [-> ->].
      split; [reflexivity|Z.div_mod_to_equations; lia].
Qed.

(** The month and the day of [_ord2ymd], from the day of the year. *)
Lemma _ord2ymd_month (leap : bool) m d :
  1 <= m <= 12 ->
  1 <= d <= (if (m =? 2) && leap then 29 else _DAYS_IN_MONTH m) ->
  let o := _DAYS_BEFORE_MONTH m + (if (2 <? m) && leap then 1 else 0) + d - 1 in
  o < 365 ->
  let month := Z.shiftr (o + 50) 5 in
  let preceding :=
    _DAYS_BEFORE_MONTH month + (if (2 <? month) && leap then 1 else 0) in
  (if o <? preceding then
     let month := month - 1 in
     let preceding :=
       preceding
       - (_DAYS_IN_MONTH month + (if (month =? 2) && leap then 1 else 0)) in
     (month, o - preceding + 1)
   else (month, o - preceding + 1)) = (m, d).
Proof.
  intros Hm Hd o Ho. cbv zeta. rewrite Z.shiftr_div_pow2 by lia.
  change (2 ^ 5) with 32.
  assert (Hmonth : m = 1 \/ m = 2 \/ m = 3 \/ m = 4 \/ m = 5 \/ m = 6 \/ m = 7
                   \/ m = 8 \/ m = 9 \/ m = 10 \/ m = 11 \/ m = 12) by lia.
  assert (Hq : (o + 50) / 32 = m \/ (o + 50) / 32 = m + 1 /\ m < 12).
  { subst o. destruct leap; decompose [or] Hmonth; subst m; simpl in *;
      Z.div_mod_to_equations; lia. }
  destruct Hq as [Hq|[Hq Hlt]]; rewrite Hq.
  - subst o. destruct leap; decompose [or] Hmonth; subst m; simpl in *;
      match goal with
      | |- context [?a <? ?b] => destruct (a <? b) eqn:Hc
      end;
      rewrite ?Z.ltb_lt, ?Z.ltb_ge in Hc; try lia; f_equal; lia.
  - subst o. destruct leap; decompose [or] Hmonth; subst m; simpl in *;
      try lia;
      match goal with
      | |- context [?a <? ?b] => destruct (a <? b) eqn:Hc
      end;
      rewrite ?Z.ltb_lt, ?Z.ltb_ge in Hc; try (f_equal; lia);
      exfalso; Z.div_mod_to_equations; lia.
Qed.

(** [_ord2ymd] undoes [_ymd2ord] on every date. *)
Lemma _ord2ymd_ymd2ord year month day :
  1 <= year -> 1 <= month <= 12 -> 1 <= day <= _days_in_month year month ->
  _ord2ymd (_ymd2ord year month day) = (year, month, day).
Proof.
  intros Hy Hm Hd. unfold _days_in_month in Hd.
  set (o := _DAYS_BEFORE_MONTH month
            + (if (2 <? month) && _is_leap year then 1 else 0) + day - 1).
  assert (Hord : _ymd2ord year month day - 1 = _days_before_year year + o).
  { unfold _ymd2ord, _days_before_month, o. lia. }
  assert (Hmonth : month = 1 \/ month = 2 \/ month = 3 \/ month = 4
                   \/ month = 5 \/ month = 6 \/ month = 7 \/ month = 8
                   \/ month = 9 \/ month = 10 \/ month = 11 \/ month = 12)
    by lia.
  assert (Ho : 0 <= o < 365 + (if _is_leap year then 1 else 0)).
  { subst o. destruct (_is_leap year); decompose [or] Hmonth; subst month;
      simpl in *; lia. }
  pose proof (_ord2ymd_year year o Hy Ho) as Hyear. cbv zeta in Hyear.
  unfold _ord2ymd. cbv zeta. rewrite Hord.
  destruct Hyear as [(Ho365 & Hspecial & Hyr)|(Holt & Hnormal & Hyr & Hrest & Hleap)].
  - rewrite Hspecial, Hyr.
    assert (month = 12 /\ day = 31) as [-> ->]; [|done].
    subst o. destruct (_is_leap year); decompose [or] Hmonth; subst month;
      simpl in *; lia.
  - rewrite Hnormal, Hyr, Hrest, Hleap.
    pose proof (_ord2ymd_month (_is_leap year) month day Hm Hd) as Hmp.
    cbv zeta in Hmp. fold o in Hmp. specialize (Hmp Holt).
    destruct (o <? _) eqn:Hc in Hmp |- *.
    + by injection Hmp as -> ->.
    + by injection Hmp as -> ->.
Qed.

Local Abbreviation digit_values := [0; 1; 2; 3; 4; 5; 6; 7; 8; 9].
Local Abbreviation digit_char := (fun d : Z => ascii_of_N (48 + Z.to_N d)).

Lemma digit_of_char c d :
  digit_of c = Some d -> In d digit_values /\ c = digit_char d.
Proof.
  destruct c as [[] [] [] [] [] [] [] []]; vm_compute; intros H;
    try discriminate H; injection H as <-; tauto.
Qed.

(** Two and four digits, read and written with leading zeros. *)
Lemma zfill_2_digits :
  forallb (fun d1 => forallb (fun d2 =>
    String.eqb (zfill 2 (10 * (10 * 0 + d1) + d2))
               (String (digit_char d1) (String (digit_char d2) "")))
    digit_values) digit_values = true.
Proof. vm_compute. reflexivity. Qed.

Lemma zfill_4_digits :
  forallb (fun d1 => forallb (fun d2 => forallb (fun d3 => forallb (fun d4 =>
    String.eqb
      (zfill 4 (10 * (10 * (10 * (10 * 0 + d1) + d2) + d3) + d4))
      (String (digit_char d1) (String (digit_char d2)
         (String (digit_char d3) (String (digit_char d4) "")))))
    digit_values) digit_values) digit_values) digit_values = true.
Proof. vm_compute. reflexivity. Qed.

Lemma zfill_parse_2 c1 c2 n :
  parse_digits [c1; c2] = Some n -> zfill 2 n = String c1 (String c2 "").
Proof.
  unfold parse_digits. cbn [digits_from].
  destruct (digit_of c1) as [d1|] eqn:H1; [|discriminate].
  destruct (digit_of c2) as [d2|] eqn:H2; [|discriminate].
  intros [= <-].
  apply digit_of_char in H1 as [Hd1 ->]. apply digit_of_char in H2 as [Hd2 ->].
  pose proof zfill_2_digits as Hall. rewrite forallb_forall in Hall.
  specialize (Hall d1 Hd1). rewrite forallb_forall in Hall.
  specialize (Hall d2 Hd2). by apply String.eqb_eq in Hall.
Qed.

Lemma zfill_parse_4 c1 c2 c3 c4 n :
  parse_digits [c1; c2; c3; c4] = Some n ->
  zfill 4 n = String c1 (String c2 (String c3 (String c4 ""))).
Proof.
  unfold parse_digits. cbn [digits_from].
  destruct (digit_of c1) as [d1|] eqn:H1; [|discriminate].
  destruct (digit_of c2) as [d2|] eqn:H2; [|discriminate].
  destruct (digit_of c3) as [d3|] eqn:H3; [|discriminate].
  destruct (digit_of c4) as [d4|] eqn:H4; [|discriminate].
  intros [= <-].
  apply digit_of_char in H1 as [Hd1 ->]. apply digit_of_char in H2 as [Hd2 ->].
  apply digit_of_char in H3 as [Hd3 ->]. apply digit_of_char in H4 as [Hd4 ->].
  pose proof zfill_4_digits as Hall. rewrite forallb_forall in Hall.
  specialize (Hall d1 Hd1). rewrite forallb_forall in Hall.
  specialize (Hall d2 Hd2). rewrite forallb_forall in Hall.
  specialize (Hall d3 Hd3). rewrite forallb_forall in Hall.
  specialize (Hall d4 Hd4). by apply String.eqb_eq in Hall.
Qed.

(** The shape of a text that [fromisoformat] reads. *)
Lemma fromisoformat_shape s r :
  fromisoformat s = Returned r ->
  exists y1 y2 y3 y4 m1 m2 d1 d2 year month day,
    s = string_of_list_ascii
          [y1; y2; y3; y4; "-"%char; m1; m2; "-"%char; d1; d2]
    /\ parse_digits [y1; y2; y3; y4] = Some year
    /\ parse_digits [m1; m2] = Some month
    /\ parse_digits [d1; d2] = Some day
    /\ 1 <= year /\ 1 <= month <= 12 /\ 1 <= day <= _days_in_month year month
    /\ r = _ymd2ord year month day.
Proof.
  unfold fromisoformat. intros H.
  repeat case_match; try discriminate.
  injection H as <-. subst.
  repeat match goal with
         | Hc : _ && _ = true |- _ => apply andb_prop in Hc as [? ?]
         | Hc : (_ <=? _) = true |- _ => apply Z.leb_le in Hc
         end.
  match goal with
  | Hs : list_ascii_of_string s = _ |- _ =>
      rewrite <- (string_of_list_ascii_of_string s), Hs
  end.
  eexists _, _, _, _, _, _, _, _, _, _, _.
  split; [reflexivity|]. repeat split; eauto.
Qed.

Lemma digit_of_not_dash c d : digit_of c = Some d -> Ascii.eqb c "-" = false.
Proof.
  destruct c as [[] [] [] [] [] [] [] []]; vm_compute; intros H;
    try discriminate H; reflexivity.
Qed.

Lemma parse_digits_2_not_dash c1 c2 n :
  parse_digits [c1; c2] = Some n ->
  Ascii.eqb c1 "-" = false /\ Ascii.eqb c2 "-" = false.
Proof.
  unfold parse_digits. cbn [digits_from].
  destruct (digit_of c1) as [d1|] eqn:H1; [|discriminate].
  destruct (digit_of c2) as [d2|] eqn:H2; [|discriminate].
  intros _. split; eapply digit_of_not_dash; eassumption.
Qed.

Lemma parse_digits_4_not_dash c1 c2 c3 c4 n :
  parse_digits [c1; c2; c3; c4] = Some n ->
  Ascii.eqb c1 "-" = false /\ Ascii.eqb c2 "-" = false
  /\ Ascii.eqb c3 "-" = false /\ Ascii.eqb c4 "-" = false.
Proof.
  unfold parse_digits. cbn [digits_from].
  destruct (digit_of c1) as [d1|] eqn:H1; [|discriminate].
  destruct (digit_of c2) as [d2|] eqn:H2; [|discriminate].
  destruct (digit_of c3) as [d3|] eqn:H3; [|discriminate].
  destruct (digit_of c4) as [d4|] eqn:H4; [|discriminate].
  intros _. repeat split; eapply digit_of_not_dash; eassumption.
Qed.

(** Reading a date and writing it with [%Y%m%d] gives the text that was
    read, without its two dashes. *)
Lemma strftime_of_fromisoformat s r :
  fromisoformat s = Returned r ->
  strftime_Ymd r = Calendar.replace_char "-"%char "" s.
Proof.
  intros H.
  apply fromisoformat_shape in H
    as (y1 & y2 & y3 & y4 & m1 & m2 & d1 & d2 & year & month & day
        & -> & Hy & Hm & Hd & Hyr & Hmo & Hda & ->).
  unfold strftime_Ymd. rewrite _ord2ymd_ymd2ord by done.
  rewrite (zfill_parse_4 _ _ _ _ _ Hy), (zfill_parse_2 _ _ _ Hm),
    (zfill_parse_2 _ _ _ Hd).
  apply parse_digits_4_not_dash in Hy as (E1 & E2 & E3 & E4).
  apply parse_digits_2_not_dash in Hm as (E5 & E6).
  apply parse_digits_2_not_dash in Hd as (E7 & E8).
  cbn [string_of_list_ascii Calendar.replace_char].
  rewrite E1, E2, E3, E4, E5, E6, E7, E8.
  change (Ascii.eqb "-" "-") with true. cbn iota.
  by rewrite !append_cons, !append_nil_l.
Qed.



End date_round_trip.

(** ** The order of the stored records *)

Section tracker_reorder.
Import Tracker.

Lemma insert_by_Permutation {A} (key : A -> Z) x l :
  insert_by key x l ≡ₚ x :: l.
Proof.
  induction l as [|z l IH]; simpl; [done|].
  destruct (key x <=? key z); [done|]. rewrite IH. apply perm_swap.
Qed.

Lemma sorted_Permutation {A} (key : A -> Z) l : sorted key l ≡ₚ l.
Proof.
  induction l as [|x l IH]; simpl; [done|].
  by rewrite insert_by_Permutation, IH.
Qed.

Lemma ordered_keys {A} (key : A -> Z) l :
  StronglySorted (key_le key) l -> StronglySorted Z.le (map key l).
Proof.
  induction 1 as [|z l Hl IH Hz]; simpl; constructor; [done|].
  rewrite Forall_forall in Hz. rewrite Forall_forall. intros k Hk.
  apply list_elem_of_In, in_map_iff in Hk as (y & <- & Hy).
  apply (Hz y). by apply list_elem_of_In.
Qed.

Lemma entries_Permutation today threshold tms tms' :
  tms ≡ₚ tms' -> entries today threshold tms ≡ₚ entries today threshold tms'.
Proof.
  unfold entries. induction 1 as [|tm l l' _ IH|tm tm' l|l l' l'' _ IH1 _ IH2].
  - done.
  - cbn [flat_map]. by rewrite IH.
  - cbn [flat_map]. rewrite !app_assoc. f_equiv. apply Permutation_app_comm.
  - by rewrite IH1.
Qed.

(** The order in which the records are stored does not change which
    renewals [get_upcoming] lists, nor their distances in order; it only
    decides the order among renewals of the same day, so that the two lists
    are the same when no two entries are due on the same day. *)
Theorem get_upcoming_reordered now days self self' res :
  trademarks self ≡ₚ trademarks self' ->
  (get_upcoming now days self).1 = Returned res ->
  exists res',
    (get_upcoming now days self').1 = Returned res'
    /\ res' ≡ₚ res
    /\ map days_until res' = map days_until res
    /\ (NoDup (map days_until res) -> res' = res).
Proof.
  intros Hperm Hres.
  apply get_upcoming_returned in Hres as (Hh & Hw & ->).
  set (today := dt_date now) in *.
  exists (sorted days_until (entries today (today + days) (trademarks self'))).
  assert (Hp : sorted days_until (entries today (today + days) (trademarks self'))
               ≡ₚ sorted days_until
                    (entries today (today + days) (trademarks self))).
  { rewrite !sorted_Permutation. by apply entries_Permutation. }
  split; [|split; [done|split]].
  - apply get_upcoming_returned. split; [done|]. split; [|done].
    by rewrite <- Hperm.
  - apply (StronglySorted_unique Z.le).
    + apply ordered_keys, sorted_ordered.
    + apply ordered_keys, sorted_ordered.
    + by apply Permutation_map.
  - intros Hnd.
    apply (StronglySorted_unique_strong (key_le days_until));
      [|apply sorted_ordered|apply sorted_ordered|done].
    intros u1 u2 H1 H2 Hle1 Hle2. unfold key_le in *.
    rewrite Hp in H1.
    assert (Hk : days_until u1 = days_until u2) by lia.
    apply list_elem_of_lookup in H1 as [i Hi]. apply list_elem_of_lookup in H2 as [j Hj].
    assert (Hij : i = j).
    { apply (NoDup_lookup _ i j (days_until u1) Hnd).
      - by rewrite list_lookup_fmap, Hi.
      - by rewrite list_lookup_fmap, Hj, Hk. }
    subst j. congruence.
Qed.

Lemma get_upcoming_reordered_witness :
  exists res res',
    (get_upcoming Fixtures.morning_oct16 30
                  (mkTracker [Fixtures.greenthumb; Fixtures.insane_og])).1
    = Returned res
    /\ (get_upcoming Fixtures.morning_oct16 30
                     (mkTracker [Fixtures.insane_og; Fixtures.greenthumb])).1
       = Returned res'
    /\ res' = res.
Proof.
  destruct (get_upcoming_reordered Fixtures.morning_oct16 30
              (mkTracker [Fixtures.greenthumb; Fixtures.insane_og])
              (mkTracker [Fixtures.insane_og; Fixtures.greenthumb])
              _ (perm_swap _ _ _) eq_refl)
    as (res' & Hres' & _ & _ & Hsame).
  eexists _, res'. split; [reflexivity|]. split; [exact Hres'|].
  apply Hsame. by apply (bool_decide_unpack _).
Defined.

End tracker_reorder.

(** ** Reminders and windows *)

Section reminders_and_windows.
Import Tracker Calendar.

(** The calendar and the tracker agree on the days: a record that
    [get_upcoming] lists with [days_until] 90, 60, 30 or 7 has its reminder
    of that many days on the very day of the call, and a record listed with
    [days_until = 0] has its deadline event on that day. *)
Theorem reminder_falls_on_the_day now days self res u now' :
  (get_upcoming now days self).1 = Returned res ->
  In u res ->
  let events := calendar_events now' (trademarks self) in
  let event label := _create_event now' (u_tm u) (dt_date now) label in
  (days_until u = 90 -> In (event "90-day reminder") events)
  /\ (days_until u = 60 -> In (event "60-day reminder") events)
  /\ (days_until u = 30 -> In (event "30-day reminder") events)
  /\ (days_until u = 7 -> In (event "7-day reminder") events)
  /\ (days_until u = 0 -> In (event "RENEWAL DEADLINE") events).
Proof.
  intros Hres Hu events event.
  apply get_upcoming_returned in Hres as (_ & _ & ->).
  apply in_sorted, in_entries in Hu as (Hin & Hact & renewal & Hparse & Hd & _).
  assert (Hev : forall e, In e (events_of now' (u_tm u) renewal) -> In e events).
  { intros e He. unfold events, calendar_events. apply in_flat_map.
    exists (u_tm u). split; [done|]. unfold trademark_events.
    apply String.eqb_eq in Hact. by rewrite Hact, Hparse. }
  unfold event. repeat split; intros HN; apply Hev; unfold events_of.
  - replace (dt_date now) with (renewal - 90) by lia. simpl. tauto.
  - replace (dt_date now) with (renewal - 60) by lia. simpl. tauto.
  - replace (dt_date now) with (renewal - 30) by lia. simpl. tauto.
  - replace (dt_date now) with (renewal - 7) by lia. simpl. tauto.
  - replace (dt_date now) with renewal by lia. simpl. tauto.
Qed.

Lemma reminder_falls_on_the_day_witness :
  In (_create_event Fixtures.evening_oct16 Fixtures.greenthumb 739540
                    "30-day reminder")
     (calendar_events Fixtures.evening_oct16 (trademarks Fixtures.portfolio)).
Proof.
  destruct (reminder_falls_on_the_day Fixtures.morning_oct16 30
              Fixtures.portfolio _ (mkUpcoming Fixtures.greenthumb 30)
              Fixtures.evening_oct16 eq_refl)
    as (_ & _ & H30 & _).
  - vm_compute. tauto.
  - by apply H30.
Defined.

End reminders_and_windows.
